(** * Cartridge loading calculator: a shallow embedding of cartridge_loading.py

    The program works on IEEE double-precision numbers and numpy arrays of
    them.  This development reads every float as the real number it stands
    for: [float] values are [R], the literals [1e-3], [1e3], [1e-12] are the
    exact rationals, numpy arrays are lists, element-wise array operations
    are [map]s, and numpy's complex128 is a pair of reals.  Rounding,
    overflow, signed zeros, NaN and the infinities are therefore outside the
    model; every statement below is a statement about the exact arithmetic
    that the code approximates.  Division is total in [R]; the denominators
    of the calculator are shown not to vanish on valid input, so the
    totalisation is never observed there.  Two things follow.  What is exact
    only in real arithmetic, such as 10^(log10 x) = x or the order of two
    samples whose exact values nearly coincide, is not a fact about the
    doubles the program computes, and nothing below is stated about it.
    And Python's own division [L / C] raises ZeroDivisionError for a zero
    capacitance, where the model's calculator is total; what is said about a
    whole run of the script is said for valid circuits.

    Text comes in two kinds.  The literals of the report are kept as the
    bytes of their UTF-8 encoding in the source file.  The strings read from
    the command line and the prompts are sequences of code points below
    256. *)

From Stdlib Require Import Reals Lra Lia List String Ascii Bool Arith Psatz.
Import ListNotations.

Local Open Scope R_scope.

(** ** Complex numbers, as numpy's complex128 with real components *)

Module Cplx.

Record C : Type := mkC { Re : R; Im : R }.

(** Promotion of a real scalar, as numpy does before a mixed operation. *)
Definition RtoC (x : R) : C := mkC x 0.

(** The literal [1j]. *)
Definition Ci : C := mkC 0 1.

Definition Cadd (a b : C) : C := mkC (Re a + Re b) (Im a + Im b).

Definition Cmul (a b : C) : C :=
  mkC (Re a * Re b - Im a * Im b) (Re a * Im b + Im a * Re b).

(** Squared modulus, the denominator of a complex quotient. *)
Definition Cnorm2 (a : C) : R := Re a * Re a + Im a * Im a.

Definition Cdiv (a b : C) : C :=
  mkC ((Re a * Re b + Im a * Im b) / Cnorm2 b)
      ((Im a * Re b - Re a * Im b) / Cnorm2 b).

(** [np.abs] on a complex number. *)
Definition Cabs (a : C) : R := sqrt (Cnorm2 a).

End Cplx.

Import Cplx.

(** ** The numpy functions the program calls *)

Module Np.

(** [np.log10]. *)
Definition log10 (x : R) : R := ln x / ln 10.

(** [np.power(base, y)] for a positive base. *)
Definition power (base y : R) : R := Rpower base y.

(** [np.arctan2(y, x)]: the angle of the point (x, y), principal value.  On
    the negative real axis the value is [pi], as for a positive zero [y]. *)
Definition arctan2 (y x : R) : R :=
  if Rlt_dec 0 x then atan (y / x)
  else if Rlt_dec x 0 then
         if Rle_dec 0 y then atan (y / x) + PI else atan (y / x) - PI
  else if Rlt_dec 0 y then PI / 2
  else if Rlt_dec y 0 then - (PI / 2)
  else 0.

(** [np.angle(z)] is [arctan2(z.imag, z.real)]. *)
Definition angle (z : C) : R := arctan2 (Im z) (Re z).

(** Replace the last element of a list, as the assignment [y[-1] = stop]. *)
Fixpoint set_last (l : list R) (v : R) : list R :=
  match l with
  | [] => []
  | [_] => [v]
  | x :: tl => x :: set_last tl v
  end.

(** [np.linspace(start, stop, num)] with the default [endpoint=True]:
    [num] samples, the step being [(stop - start) / (num - 1)]; when the
    step is zero numpy scales by [delta] after dividing the index; with one
    sample there is no step and the index is multiplied by [delta]; the last
    sample is overwritten with [stop] when there are at least two.  The
    sample count is a [nat]: numpy raises ValueError on a negative count,
    which this type excludes. *)
Definition linspace (start stop : R) (num : nat) : list R :=
  let div := (num - 1)%nat in
  let delta := stop - start in
  let y := map INR (seq 0 num) in
  let y :=
    if (0 <? div)%nat then
      let step := delta / INR div in
      if Req_EM_T step 0
      then map (fun k => k / INR div * delta) y
      else map (fun k => k * step) y
    else map (fun k => k * delta) y in
  let y := map (fun v => v + start) y in
  if (1 <? num)%nat then set_last y stop else y.

(** [np.logspace(start, stop, num)] with the default base 10. *)
Definition logspace (start stop : R) (num : nat) : list R :=
  map (power 10) (linspace start stop num).

(** Scan for the first position of the largest element, starting from a
    current best [(bi, bv)] and the position [i] of the head. *)
Fixpoint argmax_from (l : list R) (i bi : nat) (bv : R) : nat :=
  match l with
  | [] => bi
  | x :: tl =>
      if Rlt_dec bv x then argmax_from tl (S i) i x
      else argmax_from tl (S i) bi bv
  end.

(** [np.argmax]: index of the first occurrence of the maximum; ValueError on
    an empty array is [None]. *)
Definition argmax (l : list R) : option nat :=
  match l with
  | [] => None
  | x :: tl => Some (argmax_from tl 1 0 x)
  end.

(** Same scan for the smallest element. *)
Fixpoint argmin_from (l : list R) (i bi : nat) (bv : R) : nat :=
  match l with
  | [] => bi
  | x :: tl =>
      if Rlt_dec x bv then argmin_from tl (S i) i x
      else argmin_from tl (S i) bi bv
  end.

(** [np.argmin]. *)
Definition argmin (l : list R) : option nat :=
  match l with
  | [] => None
  | x :: tl => Some (argmin_from tl 1 0 x)
  end.

(** Element-wise binary operation on two arrays of the same shape. *)
Definition zip_with {A B D : Type} (f : A -> B -> D)
  (l1 : list A) (l2 : list B) : list D :=
  map (fun p => f (fst p) (snd p)) (combine l1 l2).

End Np.

(** ** The response calculator *)

(** The five values the calculator returns, under the names of its return
    statement. *)
Record Response : Type := mkResponse {
  frequencies : list R;
  magnitude_dB : list R;
  phase_deg : list R;
  f_res_ideal : R;
  Q : R
}.

(** The array statements of the calculator, one definition per assignment,
    so that the intermediate arrays can be named in the theorems. *)

(** [omega = 2 * np.pi * frequencies] *)
Definition omega_arr (frequencies : list R) : list R :=
  map (fun f => 2 * PI * f) frequencies.

(** [Z_cart = R_cart + 1j * omega * L] *)
Definition Z_cart_arr (R_cart L : R) (omega : list R) : list C :=
  map (fun w => Cadd (RtoC R_cart) (Cmul (Cmul Ci (RtoC w)) (RtoC L))) omega.

(** [Z_cap = 1.0 / (1j * omega * C)] *)
Definition Z_cap_arr (C : R) (omega : list R) : list Cplx.C :=
  map (fun w => Cdiv (RtoC 1) (Cmul (Cmul Ci (RtoC w)) (RtoC C))) omega.

(** [Z_load = (R_load * Z_cap) / (R_load + Z_cap)] *)
Definition Z_load_arr (R_load : R) (Z_cap : list C) : list C :=
  map (fun zc => Cdiv (Cmul (RtoC R_load) zc) (Cadd (RtoC R_load) zc)) Z_cap.

(** [H = Z_load / (Z_cart + Z_load)] *)
Definition H_arr (Z_load Z_cart : list C) : list C :=
  Np.zip_with (fun zl zc => Cdiv zl (Cadd zc zl)) Z_load Z_cart.

(** [cartridge_frequency_response], statement by statement. *)
Definition cartridge_frequency_response
  (L_cart_mH R_cart_ohms R_load_kohms C_total_pF : R)
  (freq_range : R * R) (num_points : nat) : Response :=
  let L := L_cart_mH * (1 / 1000) in
  let R_cart := R_cart_ohms in
  let R_load := R_load_kohms * 1000 in
  let C := C_total_pF * (1 / 1000000000000) in
  let frequencies :=
    Np.logspace (Np.log10 (fst freq_range)) (Np.log10 (snd freq_range))
                num_points in
  let omega := omega_arr frequencies in
  let Z_cart := Z_cart_arr R_cart L omega in
  let Z_cap := Z_cap_arr C omega in
  let Z_load := Z_load_arr R_load Z_cap in
  let H := H_arr Z_load Z_cart in
  let magnitude_dB := map (fun h => 20 * Np.log10 (Cabs h)) H in
  let phase_deg := map (fun h => Np.angle h * 180 / PI) H in
  let f_res_ideal := 1 / (2 * PI * sqrt (L * C)) in
  let Z0 := sqrt (L / C) in
  let R_total := R_cart + R_load in
  let Q := Z0 / R_total in
  mkResponse frequencies magnitude_dB phase_deg f_res_ideal Q.

(** ** The report renderer *)

Local Open Scope string_scope.

(** A formatted string is kept as its parts: literal text, a number with the
    format specification of its replacement field (empty for a bare
    [{x}]), and a path built by [os.path.join].  Number formatting itself is
    not modelled. *)
Inductive piece : Type :=
| Txt (s : string)
| Num (x : R) (fmt : string)
| PathJoin (dir file : string).

Definition text : Type := list piece.

(** What the renderer does to the outside world, in order.  Drawing calls of
    matplotlib are kept only through the legend labels they carry; creating
    the directory and writing the image are recorded and taken to succeed. *)
Inductive event : Type :=
| EvCalc (L_cart R_cart R_load C_total : R) (freq_range : R * R)
         (num_points : nat)
| EvLegend (label : text)
| EvMakedirs (dir : string)
| EvSavefig (path : piece)
| EvPrint (line : text).

Inductive exn : Type := ValueError | IndexError.

(** The renderer's effects: a log of events that grows at its end, and a
    result that is a value or a raised exception. *)
Definition M (A : Type) : Type := list event -> list event * (exn + A).

Definition ret {A : Type} (a : A) : M A := fun log => (log, inr a).

Definition bind {A B : Type} (m : M A) (k : A -> M B) : M B :=
  fun log =>
    match m log with
    | (log', inl e) => (log', inl e)
    | (log', inr a) => k a log'
    end.

Definition raise {A : Type} (e : exn) : M A := fun log => (log, inl e).

Definition emit (e : event) : M unit := fun log => ((log ++ [e])%list, inr tt).

Declare Scope render_scope.
Delimit Scope render_scope with render.
Notation "x <- m ;; k" := (bind m (fun x => k))
  (at level 61, m at next level, right associativity) : render_scope.
Notation "m ;;; k" := (bind m (fun _ => k))
  (at level 61, right associativity) : render_scope.

(** A call of the calculator, recorded with its arguments. *)
Definition call_calculator (L_cart R_cart R_load C_total : R)
  (freq_range : R * R) (num_points : nat) : M Response :=
  bind (emit (EvCalc L_cart R_cart R_load C_total freq_range num_points))
       (fun _ => ret (cartridge_frequency_response
                        L_cart R_cart R_load C_total freq_range num_points)).

Definition np_argmax (l : list R) : M nat :=
  match Np.argmax l with Some i => ret i | None => raise ValueError end.

Definition np_argmin (l : list R) : M nat :=
  match Np.argmin l with Some i => ret i | None => raise ValueError end.

(** Indexing [a[i]] with a non-negative index. *)
Definition index (a : list R) (i : nat) : M R :=
  match nth_error a i with Some v => ret v | None => raise IndexError end.

Definition print (line : text) : M unit := emit (EvPrint line).

(** Python's [s * n] on strings. *)
Fixpoint str_mul (s : string) (n : nat) : string :=
  match n with
  | O => ""
  | S n' => s ++ str_mul s n'
  end.

(** The newline escape. *)
Definition nl : string := String (ascii_of_nat 10) "".

(** The conditional expression of the damping line. *)
Definition damping_label (Q : R) : string :=
  if Rgt_dec Q 1 then "Under-damped (resonant peak visible)"
  else "Critically/Over-damped (minimal peak)".

(** The if / elif / else chain that closes the report. *)
Definition interpretation (peak_mag peak_freq : R) : M unit :=
  (if Rgt_dec peak_mag 3 then
     print [Txt "  ⚠ Significant treble boost of "; Num peak_mag ".1f";
            Txt "dB at "; Num peak_freq ".0f"; Txt "Hz"] ;;;
     print [Txt "    This may sound bright or harsh. Consider reducing capacitance."]
   else if Rgt_dec peak_mag 1 then
     print [Txt "  ℹ Moderate treble lift of "; Num peak_mag ".1f";
            Txt "dB at "; Num peak_freq ".0f"; Txt "Hz"] ;;;
     print [Txt "    This is typical and usually not problematic."]
   else
     print [Txt "  ✓ Well-damped response with minimal peak (";
            Num peak_mag ".1f"; Txt "dB)"] ;;;
     print [Txt "    Good loading for this cartridge."])%render.

(** [plot_cartridge_response], in the order of the source. *)
Definition plot_cartridge_response (L_cart R_cart R_load C_total : R)
  (use_log_scale : bool) (output_file output_dir : string)
  (show_phase : bool) : M unit :=
  (audible <- call_calculator L_cart R_cart R_load C_total (20, 20000) 2000 ;;
   let freq_audible := frequencies audible in
   let mag_audible := magnitude_dB audible in
   let phase_audible := phase_deg audible in
   let f_res := f_res_ideal audible in
   let Q := Q audible in
   extended <- call_calculator L_cart R_cart R_load C_total (20, 50000) 3000 ;;
   let freq_extended := frequencies extended in
   let mag_extended := magnitude_dB extended in
   let phase_extended := phase_deg extended in
   peak_idx <- np_argmax mag_audible ;;
   peak_freq <- index freq_audible peak_idx ;;
   peak_mag <- index mag_audible peak_idx ;;
   emit (EvLegend [Txt "Magnitude (Peak: "; Num peak_freq ".0f"; Txt "Hz @ ";
                   Num peak_mag ".2f"; Txt "dB, Q="; Num Q ".2f"; Txt ")"]) ;;;
   (if show_phase then
      at_peak <- index phase_audible peak_idx ;;
      emit (EvLegend [Txt "Phase (@ peak: "; Num at_peak ".1f"; Txt "°)"]) ;;;
      phase_at_peak <- index phase_audible peak_idx ;;
      ret tt
    else ret tt) ;;;
   peak_idx_ext <- np_argmax mag_extended ;;
   peak_freq_ext <- index freq_extended peak_idx_ext ;;
   peak_mag_ext <- index mag_extended peak_idx_ext ;;
   emit (EvLegend [Txt "Magnitude (Peak: "; Num peak_freq_ext ".0f";
                   Txt "Hz @ "; Num peak_mag_ext ".2f";
                   Txt "dB, Ideal LC: "; Num f_res ".0f"; Txt "Hz)"]) ;;;
   emit (EvLegend [Txt "Ideal LC: "; Num f_res ".0f"; Txt "Hz"]) ;;;
   (if show_phase then
      phase_at_peak_ext <- index phase_extended peak_idx_ext ;;
      idx_ideal <- np_argmin (map (fun f => Rabs (f - f_res)) freq_extended) ;;
      phase_at_ideal <- index phase_extended idx_ideal ;;
      emit (EvLegend [Txt "Phase (@ peak: "; Num phase_at_peak_ext ".1f";
                      Txt "°, @ ideal LC: "; Num phase_at_ideal ".1f";
                      Txt "°)"])
    else ret tt) ;;;
   emit (EvMakedirs output_dir) ;;;
   let output_path := PathJoin output_dir output_file in
   emit (EvSavefig output_path) ;;;
   print [Txt (nl ++ "✓ Plot saved to: "); output_path] ;;;
   print [Txt (nl ++ str_mul "=" 60)] ;;;
   print [Txt "CARTRIDGE LOADING ANALYSIS"] ;;;
   print [Txt (str_mul "=" 60)] ;;;
   print [Txt (nl ++ "Cartridge Parameters:")] ;;;
   print [Txt "  Inductance:      "; Num L_cart ""; Txt " mH"] ;;;
   print [Txt "  DC Resistance:   "; Num R_cart ""; Txt " Ω"] ;;;
   print [Txt (nl ++ "Load Parameters:")] ;;;
   print [Txt "  Load Resistance: "; Num R_load ""; Txt " kΩ"] ;;;
   print [Txt "  Total Capacitance: "; Num C_total ""; Txt " pF"] ;;;
   print [Txt (nl ++ "Calculated Results:")] ;;;
   print [Txt "  Ideal LC Resonance:  "; Num f_res ".1f"; Txt " Hz"] ;;;
   print [Txt "  Actual Peak Freq:    "; Num peak_freq ".1f"; Txt " Hz"] ;;;
   print [Txt "  Peak Magnitude:      "; Num peak_mag ".2f"; Txt " dB"] ;;;
   print [Txt "  Q Factor:            "; Num Q ".3f"] ;;;
   print [Txt "  Damping:             "; Txt (damping_label Q)] ;;;
   print [Txt (nl ++ "Interpretation:")] ;;;
   interpretation peak_mag peak_freq ;;;
   print [Txt (str_mul "=" 60)])%render.

(** ** The option parsing of the entry point

    Strings are Python [str] values whose characters are code points below
    256, one [ascii] each; on these, [str.isspace] and [str.lower] are the
    two functions below.  Parsing of the four numbers with [float] is not
    part of the model. *)

(** [str.isspace] on one character: tab to carriage return, the four
    separators 0x1c to 0x1f, the space, NEL (0x85) and the no-break space
    (0xa0). *)
Definition is_space (c : ascii) : bool :=
  let n := nat_of_ascii c in
  ((9 <=? n) && (n <=? 13) || (28 <=? n) && (n <=? 32)
   || (n =? 133) || (n =? 160))%nat.

(** [str.lower] on one character: A to Z, and the Latin-1 capitals 0xc0 to
    0xde without the multiplication sign 0xd7. *)
Definition lower_char (c : ascii) : ascii :=
  let n := nat_of_ascii c in
  if ((65 <=? n) && (n <=? 90) || (192 <=? n) && (n <=? 214)
      || (216 <=? n) && (n <=? 222))%nat
  then ascii_of_nat (n + 32) else c.

(** [s.lower()] *)
Fixpoint lower (s : string) : string :=
  match s with
  | EmptyString => EmptyString
  | String c s' => String (lower_char c) (lower s')
  end.

Fixpoint lstrip (s : string) : string :=
  match s with
  | EmptyString => EmptyString
  | String c s' => if is_space c then lstrip s' else s
  end.

Fixpoint rstrip (s : string) : string :=
  match s with
  | EmptyString => EmptyString
  | String c s' =>
      match rstrip s' with
      | EmptyString => if is_space c then EmptyString else String c EmptyString
      | r => String c r
      end
  end.

(** [s.strip()] *)
Definition strip (s : string) : string := rstrip (lstrip s).

(** [x in [a, b, ...]] on strings. *)
Definition in_list (x : string) (l : list string) : bool :=
  existsb (String.eqb x) l.

(** Command-line mode: the expressions that set [use_log] and [show_phase]
    from [sys.argv]. *)
Definition cli_use_log (argv : list string) : bool :=
  if (5 <? List.length argv)%nat
  then in_list (lower (nth 5 argv "")) ["log"; "logarithmic"; "true"; "1"]
  else true.

Definition cli_show_phase (argv : list string) : bool :=
  if (6 <? List.length argv)%nat
  then in_list (lower (nth 6 argv "")) ["phase"; "true"; "1"; "yes"]
  else true.

(** Interactive mode: the same two flags from the text typed at the two
    prompts, as [input] returns it. *)
Definition interactive_use_log (typed : string) : bool :=
  let scale_input := lower (strip typed) in
  in_list scale_input [""; "log"; "logarithmic"].

Definition interactive_show_phase (typed : string) : bool :=
  let phase_input := lower (strip typed) in
  in_list phase_input [""; "yes"; "y"; "true"; "1"].

(** ** The specification's formulas, in its own words *)

(** Cartridge impedance [R_cart + i w L]. *)
Definition Z_cart_spec (R_cart L w : R) : C := mkC R_cart (w * L).

(** Load impedance [R_load / (1 + i w R_load C)]. *)
Definition Z_load_spec (R_load C w : R) : Cplx.C :=
  Cdiv (RtoC R_load) (mkC 1 (w * R_load * C)).

(** Transfer function [H = Z_load / (Z_cart + Z_load)]. *)
Definition H_spec (R_cart R_load L C w : R) : Cplx.C :=
  Cdiv (Z_load_spec R_load C w)
       (Cadd (Z_cart_spec R_cart L w) (Z_load_spec R_load C w)).

(** The interpretation tiers of the report. *)
Inductive tier : Type := SignificantBoost | ModerateLift | WellDamped.

(** The tier as the specification words it: above 3 dB, else above 1 dB,
    else well damped. *)
Definition tier_spec (peakMagnitude_dB : R) : tier :=
  if Rgt_dec peakMagnitude_dB 3 then SignificantBoost
  else if Rgt_dec peakMagnitude_dB 1 then ModerateLift
  else WellDamped.

(** The two lines each tier prints. *)
Definition tier_lines (t : tier) (peak_mag peak_freq : R) : list event :=
  match t with
  | SignificantBoost =>
      [EvPrint [Txt "  ⚠ Significant treble boost of "; Num peak_mag ".1f";
                Txt "dB at "; Num peak_freq ".0f"; Txt "Hz"];
       EvPrint [Txt "    This may sound bright or harsh. Consider reducing capacitance."]]
  | ModerateLift =>
      [EvPrint [Txt "  ℹ Moderate treble lift of "; Num peak_mag ".1f";
                Txt "dB at "; Num peak_freq ".0f"; Txt "Hz"];
       EvPrint [Txt "    This is typical and usually not problematic."]]
  | WellDamped =>
      [EvPrint [Txt "  ✓ Well-damped response with minimal peak (";
                Num peak_mag ".1f"; Txt "dB)"];
       EvPrint [Txt "    Good loading for this cartridge."]]
  end.

(** ** The calculator's expressions at one angular frequency

    The element-wise array statements of the calculator, read at a single
    element; [calculator_pointwise] below shows that the arrays are the
    [map]s of these. *)

Definition Z_cart_at (R_cart L w : R) : C :=
  Cadd (RtoC R_cart) (Cmul (Cmul Ci (RtoC w)) (RtoC L)).

Definition Z_cap_at (C w : R) : Cplx.C :=
  Cdiv (RtoC 1) (Cmul (Cmul Ci (RtoC w)) (RtoC C)).

Definition Z_load_at (R_load C w : R) : Cplx.C :=
  Cdiv (Cmul (RtoC R_load) (Z_cap_at C w))
       (Cadd (RtoC R_load) (Z_cap_at C w)).

Definition H_at (R_cart R_load L C w : R) : Cplx.C :=
  Cdiv (Z_load_at R_load C w)
       (Cadd (Z_cart_at R_cart L w) (Z_load_at R_load C w)).

(** Unit conversions of the calculator's first four statements. *)
Definition henries (L_cart_mH : R) : R := L_cart_mH * (1 / 1000).
Definition ohms (R_load_kohms : R) : R := R_load_kohms * 1000.
Definition farads (C_total_pF : R) : R := C_total_pF * (1 / 1000000000000).

(** ** Reading a trace of the renderer *)

Definition is_calc (e : event) : bool :=
  match e with EvCalc _ _ _ _ _ _ => true | _ => false end.

(** The calls of the calculator, in order. *)
Definition calc_calls (trace : list event) : list event :=
  filter is_calc trace.

(** The lines written to the console, in order. *)
Definition printed (trace : list event) : list text :=
  flat_map (fun e => match e with EvPrint t => [t] | _ => [] end) trace.

(** The lines that open with a given literal. *)
Definition lines_with (label : string) (lines : list text) : list text :=
  filter (fun t => match t with
                   | Txt s :: _ => String.eqb s label
                   | _ => false
                   end) lines.

(** [p] is a position of the global maximum of the array [a]. *)
Definition is_peak (a : list R) (p : nat) : Prop :=
  (p < List.length a)%nat
  /\ forall k, (k < List.length a)%nat -> nth k a 0 <= nth p a 0.

(** The whole trace of one run of the renderer, given the two sweeps and the
    three positions found in them: [p] and [pe] by argmax of the audible and
    the extended magnitudes, [q] by argmin of the distance to the ideal
    resonance. *)
Definition report_trace (L_cart R_cart R_load C_total : R)
  (output_file output_dir : string) (show_phase : bool)
  (aud ext : Response) (p pe q : nat) : list event :=
  let peak_freq := nth p (frequencies aud) 0 in
  let peak_mag := nth p (magnitude_dB aud) 0 in
  let f_res := f_res_ideal aud in
  ([EvCalc L_cart R_cart R_load C_total (20, 20000) 2000;
    EvCalc L_cart R_cart R_load C_total (20, 50000) 3000;
    EvLegend [Txt "Magnitude (Peak: "; Num peak_freq ".0f"; Txt "Hz @ ";
              Num peak_mag ".2f"; Txt "dB, Q="; Num (Q aud) ".2f"; Txt ")"]]
   ++ (if show_phase
       then [EvLegend [Txt "Phase (@ peak: ";
                       Num (nth p (phase_deg aud) 0) ".1f"; Txt "°)"]]
       else [])
   ++ [EvLegend [Txt "Magnitude (Peak: ";
                 Num (nth pe (frequencies ext) 0) ".0f"; Txt "Hz @ ";
                 Num (nth pe (magnitude_dB ext) 0) ".2f";
                 Txt "dB, Ideal LC: "; Num f_res ".0f"; Txt "Hz)"];
       EvLegend [Txt "Ideal LC: "; Num f_res ".0f"; Txt "Hz"]]
   ++ (if show_phase
       then [EvLegend [Txt "Phase (@ peak: ";
                       Num (nth pe (phase_deg ext) 0) ".1f";
                       Txt "°, @ ideal LC: ";
                       Num (nth q (phase_deg ext) 0) ".1f"; Txt "°)"]]
       else [])
   ++ [EvMakedirs output_dir;
       EvSavefig (PathJoin output_dir output_file);
       EvPrint [Txt (nl ++ "✓ Plot saved to: ");
                PathJoin output_dir output_file];
       EvPrint [Txt (nl ++ str_mul "=" 60)];
       EvPrint [Txt "CARTRIDGE LOADING ANALYSIS"];
       EvPrint [Txt (str_mul "=" 60)];
       EvPrint [Txt (nl ++ "Cartridge Parameters:")];
       EvPrint [Txt "  Inductance:      "; Num L_cart ""; Txt " mH"];
       EvPrint [Txt "  DC Resistance:   "; Num R_cart ""; Txt " Ω"];
       EvPrint [Txt (nl ++ "Load Parameters:")];
       EvPrint [Txt "  Load Resistance: "; Num R_load ""; Txt " kΩ"];
       EvPrint [Txt "  Total Capacitance: "; Num C_total ""; Txt " pF"];
       EvPrint [Txt (nl ++ "Calculated Results:")];
       EvPrint [Txt "  Ideal LC Resonance:  "; Num f_res ".1f"; Txt " Hz"];
       EvPrint [Txt "  Actual Peak Freq:    "; Num peak_freq ".1f";
                Txt " Hz"];
       EvPrint [Txt "  Peak Magnitude:      "; Num peak_mag ".2f";
                Txt " dB"];
       EvPrint [Txt "  Q Factor:            "; Num (Q aud) ".3f"];
       EvPrint [Txt "  Damping:             "; Txt (damping_label (Q aud))];
       EvPrint [Txt (nl ++ "Interpretation:")]]
   ++ tier_lines (tier_spec peak_mag) peak_mag peak_freq
   ++ [EvPrint [Txt (str_mul "=" 60)]])%list.

(** The events that follow the first console line made of the single
    literal [header]. *)
Fixpoint after_line (header : string) (trace : list event) : list event :=
  match trace with
  | [] => []
  | EvPrint [Txt s] :: rest =>
      if String.eqb s header then rest else after_line header rest
  | _ :: rest => after_line header rest
  end.

(** ** The squared gain as a function of the squared angular frequency

    [1 / |H|^2] written as a quadratic in [u = w^2]; [gain_denominator_ok]
    below shows that it is. *)
Definition gain_denominator (R_cart R_load L C u : R) : R :=
  (1 + R_cart / R_load - u * L * C) * (1 + R_cart / R_load - u * L * C)
  + u * (L / R_load + R_cart * C) * (L / R_load + R_cart * C).

(** The magnitude in decibels that belongs to a value of the denominator. *)
Definition dB_of_denominator (d : R) : R := 20 * Np.log10 (sqrt (/ d)).

(** ** The calculator's expressions with their domains checked

    In floating point a quotient by zero and the logarithm of zero are
    infinities or NaN, not exceptions.  Here they are [None], so that "the
    result is finite" becomes "the checked evaluation returns a value".
    [checked_sample] is the body of the calculator at one angular frequency,
    from the impedances to the magnitude and the phase, with every division
    and the logarithm checked. *)

Definition finite_div (a b : R) : option R :=
  if Req_EM_T b 0 then None else Some (a / b).

Definition finite_Cdiv (a b : C) : option C :=
  if Req_EM_T (Cnorm2 b) 0 then None else Some (Cdiv a b).

Definition finite_log10 (x : R) : option R :=
  if Rlt_dec 0 x then Some (Np.log10 x) else None.

Definition and_then {A B : Type} (o : option A) (k : A -> option B)
  : option B :=
  match o with
  | Some a => k a
  | None => None
  end.

Definition checked_sample (R_cart R_load L C w : R) : option (R * R) :=
  let Z_cart := Cadd (RtoC R_cart) (Cmul (Cmul Ci (RtoC w)) (RtoC L)) in
  and_then (finite_Cdiv (RtoC 1) (Cmul (Cmul Ci (RtoC w)) (RtoC C)))
    (fun Z_cap =>
  and_then (finite_Cdiv (Cmul (RtoC R_load) Z_cap)
                        (Cadd (RtoC R_load) Z_cap))
    (fun Z_load =>
  and_then (finite_Cdiv Z_load (Cadd Z_cart Z_load))
    (fun H =>
  and_then (finite_log10 (Cabs H))
    (fun log_abs =>
  and_then (finite_div (Np.angle H * 180) PI)
    (fun phase => Some (20 * log_abs, phase)))))).

(** ** More readers of a trace *)

(** The legend labels, in order. *)
Definition legends (trace : list event) : list text :=
  flat_map (fun e => match e with EvLegend l => [l] | _ => [] end) trace.

Definition is_legend (e : event) : bool :=
  match e with EvLegend _ => true | _ => false end.

(** [q] is a position of the element of [a] closest to [target]. *)
Definition is_nearest (a : list R) (target : R) (q : nat) : Prop :=
  (q < List.length a)%nat
  /\ forall k, (k < List.length a)%nat ->
               Rabs (nth q a 0 - target) <= Rabs (nth k a 0 - target).

(** A string of white space only. *)
Fixpoint all_space (s : string) : bool :=
  match s with
  | EmptyString => true
  | String c s' => is_space c && all_space s'
  end.

(** ** The entry point

    The program run as a script: the command-line mode when arguments are
    given, the interactive mode otherwise.  [float] on a string is a
    parameter [float_of] of the model, [None] standing for ValueError;
    strings that Python reads as an infinity or NaN are outside the model.
    Standard input is the list of what the successive [input] calls yield: a
    line, or a keyboard interrupt; past its end [input] raises EOFError. *)

Inductive answer : Type :=
| Typed (line : string)
| Interrupt.

(** Where a ValueError came from: [float] on a string, or the renderer. *)
Inductive bad_value : Type :=
| BadFloat (s : string)
| FromRenderer.

(** What the script writes and does, in order: a printed line, the prompt of
    an [input] call, an event of the renderer, and the line
    "Error: Invalid input - e" with the exception [e] it formats. *)
Inductive out : Type :=
| Say (line : text)
| Ask (prompt : string)
| Render (e : event)
| SayInvalid (e : bad_value).

Inductive raised : Type :=
| RValueError (e : bad_value)
| RIndexError
| RKeyboardInterrupt
| REOFError
| RSystemExit (status : nat).

Record world : Type := mkWorld {
  pending : list answer;
  shown : list out
}.

Definition IO (A : Type) : Type := world -> world * (raised + A).

Definition io_ret {A : Type} (a : A) : IO A := fun w => (w, inr a).

Definition io_bind {A B : Type} (m : IO A) (k : A -> IO B) : IO B :=
  fun w =>
    match m w with
    | (w', inl e) => (w', inl e)
    | (w', inr a) => k a w'
    end.

Definition io_raise {A : Type} (e : raised) : IO A := fun w => (w, inl e).

(** [try: body except ...: handler]: [handlers e] is the handler of the
    first matching except clause, if any. *)
Definition try_except {A : Type} (body : IO A)
  (handlers : raised -> option (IO A)) : IO A :=
  fun w =>
    match body w with
    | (w', inl e) =>
        match handlers e with
        | Some handler => handler w'
        | None => (w', inl e)
        end
    | (w', inr a) => (w', inr a)
    end.

Declare Scope io_scope.
Delimit Scope io_scope with io.
Notation "x <- m ;; k" := (io_bind m (fun x => k))
  (at level 61, m at next level, right associativity) : io_scope.
Notation "m ;;; k" := (io_bind m (fun _ => k))
  (at level 61, right associativity) : io_scope.

Definition write (o : out) : IO unit :=
  fun w => (mkWorld (pending w) (shown w ++ [o])%list, inr tt).

Definition say (line : text) : IO unit := write (Say line).

(** [input(prompt)]: the prompt is written, then a line is read. *)
Definition input (prompt : string) : IO string :=
  fun w =>
    let shown' := (shown w ++ [Ask prompt])%list in
    match pending w with
    | [] => (mkWorld [] shown', inl REOFError)
    | Typed line :: rest => (mkWorld rest shown', inr line)
    | Interrupt :: rest => (mkWorld rest shown', inl RKeyboardInterrupt)
    end.

(** [float(s)] *)
Definition float (float_of : string -> option R) (s : string) : IO R :=
  match float_of s with
  | Some x => io_ret x
  | None => io_raise (RValueError (BadFloat s))
  end.

(** [sys.argv[i]] *)
Definition argv_at (argv : list string) (i : nat) : IO string :=
  match nth_error argv i with
  | Some s => io_ret s
  | None => io_raise RIndexError
  end.

(** [sys.exit(status)] *)
Definition sys_exit {A : Type} (status : nat) : IO A :=
  io_raise (RSystemExit status).

(** The call of [plot_cartridge_response] as the entry point makes it, with
    the default output file and directory: the renderer's events are
    appended to what the script has shown, and an exception of the renderer
    propagates into the script. *)
Definition call_renderer (L_cart R_cart R_load C_total : R)
  (use_log show_phase : bool) : IO unit :=
  fun w =>
    let (trace, result) :=
      plot_cartridge_response L_cart R_cart R_load C_total use_log
        "cartridge_loading_response.png" "." show_phase [] in
    let w' := mkWorld (pending w) (shown w ++ map Render trace)%list in
    match result with
    | inr _ => (w', inr tt)
    | inl ValueError => (w', inl (RValueError FromRenderer))
    | inl IndexError => (w', inl RIndexError)
    end.

(** The usage text of the command-line mode. *)
Definition print_usage : IO unit :=
  (say [Txt (nl ++ "Usage: python cartridge_loading.py L_cart R_cart R_load C_total [scale] [phase]")] ;;;
   say [Txt (nl ++ "Arguments:")] ;;;
   say [Txt "  L_cart   : Cartridge inductance in mH"] ;;;
   say [Txt "  R_cart   : Cartridge DC resistance in Ω"] ;;;
   say [Txt "  R_load   : Preamp load resistance in kΩ"] ;;;
   say [Txt "  C_total  : Total capacitance (cable + preamp) in pF"] ;;;
   say [Txt "  scale    : 'log' or 'linear' (optional, default: log)"] ;;;
   say [Txt "  phase    : 'yes' or 'no' to show phase plots (optional, default: yes)"] ;;;
   say [Txt (nl ++ "Example:")] ;;;
   say [Txt "  python cartridge_loading.py 500 600 47 200 log yes"])%io.

(** The branch [len(sys.argv) > 1]. *)
Definition cli_mode (float_of : string -> option R) (argv : list string)
  : IO unit :=
  try_except
    (a1 <- argv_at argv 1 ;; L_cart <- float float_of a1 ;;
     a2 <- argv_at argv 2 ;; R_cart <- float float_of a2 ;;
     a3 <- argv_at argv 3 ;; R_load <- float float_of a3 ;;
     a4 <- argv_at argv 4 ;; C_total <- float float_of a4 ;;
     let use_log := cli_use_log argv in
     let show_phase := cli_show_phase argv in
     say [Txt (nl ++ "Generating cartridge loading plot...")] ;;;
     call_renderer L_cart R_cart R_load C_total use_log show_phase)%io
    (fun e =>
       match e with
       | RIndexError | RValueError _ =>
           Some (print_usage ;;; sys_exit 1)%io
       | _ => None
       end).

(** Truth value of a string: not empty. *)
Definition nonempty (s : string) : bool :=
  match s with
  | EmptyString => false
  | String _ _ => true
  end.

(** The two statements of one numeric prompt:
    [x_input = input(prompt).strip()] and
    [x = float(x_input) if x_input else default]. *)
Definition prompt_float (float_of : string -> option R) (prompt : string)
  (default : R) : IO R :=
  (typed <- input prompt ;;
   let x_input := strip typed in
   if nonempty x_input then float float_of x_input else io_ret default)%io.

(** The else branch: the interactive mode. *)
Definition interactive_mode (float_of : string -> option R) : IO unit :=
  (say [Txt (nl ++ str_mul "=" 60)] ;;;
   say [Txt "CARTRIDGE LOADING CALCULATOR"] ;;;
   say [Txt (str_mul "=" 60)] ;;;
   say [Txt (nl ++ "Enter cartridge and loading parameters:")] ;;;
   say [Txt ("(Press Enter for defaults shown in brackets)" ++ nl)] ;;;
   try_except
     (L_cart <- prompt_float float_of "Cartridge Inductance [500] mH: " 500 ;;
      R_cart <- prompt_float float_of "Cartridge DC Resistance [600] Ω: " 600 ;;
      R_load <- prompt_float float_of "Preamp Load Resistance [47] kΩ: " 47 ;;
      C_total <- prompt_float float_of
                   "Total Capacitance (cable + preamp) [200] pF: " 200 ;;
      scale_typed <- input "Frequency scale (log/linear) [log]: " ;;
      let use_log := interactive_use_log scale_typed in
      phase_typed <- input "Show phase response? (yes/no) [yes]: " ;;
      let show_phase := interactive_show_phase phase_typed in
      say [Txt (nl ++ "Generating cartridge loading plot...")] ;;;
      call_renderer L_cart R_cart R_load C_total use_log show_phase)
     (fun e =>
        match e with
        | RValueError v => Some (write (SayInvalid v) ;;; sys_exit 1)
        | RKeyboardInterrupt =>
            Some (say [Txt (nl ++ nl ++ "✗ Cancelled by user")] ;;;
                  sys_exit 1)
        | _ => None
        end))%io.

(** The script: [if len(sys.argv) > 1: ... else: ...]. *)
Definition main (float_of : string -> option R) (argv : list string)
  : IO unit :=
  if (1 <? List.length argv)%nat then cli_mode float_of argv
  else interactive_mode float_of.

(** The status with which the process ends: 0 after a normal end, the
    argument of [sys.exit], and 1 after an exception nobody caught. *)
Definition exit_status (result : raised + unit) : nat :=
  match result with
  | inr _ => 0
  | inl (RSystemExit status) => status
  | inl _ => 1
  end.

(** A run of the script from the command line [argv] with [answers] on
    standard input. *)
Definition run_main (float_of : string -> option R) (argv : list string)
  (answers : list answer) : world * (raised + unit) :=
  main float_of argv (mkWorld answers []).

(** The usage text as it appears on the console. *)
Definition usage_lines : list out :=
  [Say [Txt (nl ++ "Usage: python cartridge_loading.py L_cart R_cart R_load C_total [scale] [phase]")];
   Say [Txt (nl ++ "Arguments:")];
   Say [Txt "  L_cart   : Cartridge inductance in mH"];
   Say [Txt "  R_cart   : Cartridge DC resistance in Ω"];
   Say [Txt "  R_load   : Preamp load resistance in kΩ"];
   Say [Txt "  C_total  : Total capacitance (cable + preamp) in pF"];
   Say [Txt "  scale    : 'log' or 'linear' (optional, default: log)"];
   Say [Txt "  phase    : 'yes' or 'no' to show phase plots (optional, default: yes)"];
   Say [Txt (nl ++ "Example:")];
   Say [Txt "  python cartridge_loading.py 500 600 47 200 log yes"]].

(** The banner of the interactive mode. *)
Definition banner_lines : list out :=
  [Say [Txt (nl ++ str_mul "=" 60)];
   Say [Txt "CARTRIDGE LOADING CALCULATOR"];
   Say [Txt (str_mul "=" 60)];
   Say [Txt (nl ++ "Enter cartridge and loading parameters:")];
   Say [Txt ("(Press Enter for defaults shown in brackets)" ++ nl)]].

(** The six prompts of the interactive mode, in order. *)
Definition prompts : list string :=
  ["Cartridge Inductance [500] mH: ";
   "Cartridge DC Resistance [600] Ω: ";
   "Preamp Load Resistance [47] kΩ: ";
   "Total Capacitance (cable + preamp) [200] pF: ";
   "Frequency scale (log/linear) [log]: ";
   "Show phase response? (yes/no) [yes]: "].

(** The four numbers of a command line, when all are there and parse. *)
Definition cli_numbers (float_of : string -> option R)
  (argv : list string) : option (R * R * R * R) :=
  match argv with
  | _ :: a1 :: a2 :: a3 :: a4 :: _ =>
      match float_of a1, float_of a2, float_of a3, float_of a4 with
      | Some L_cart, Some R_cart, Some R_load, Some C_total =>
          Some (L_cart, R_cart, R_load, C_total)
      | _, _, _, _ => None
      end
  | _ => None
  end.

(** The events of the renderer among what a run has shown. *)
Definition rendered (l : list out) : list event :=
  flat_map (fun o => match o with Render e => [e] | _ => [] end) l.

(** What the renderer leaves when called with the default output file. *)
Definition default_render (L_cart R_cart R_load C_total : R)
  (use_log show_phase : bool) : list event :=
  fst (plot_cartridge_response L_cart R_cart R_load C_total use_log
         "cartridge_loading_response.png" "." show_phase []).

(** The number that one numeric prompt yields for a typed line: the default
    for a blank line, otherwise what [float] reads, [None] when it raises. *)
Definition number_read (float_of : string -> option R) (default : R)
  (typed : string) : option R :=
  if nonempty (strip typed) then float_of (strip typed) else Some default.

(** A reader of numbers for the examples: the decimal strings the usage
    text mentions, and nothing else. *)
Definition sample_float_of (s : string) : option R :=
  if String.eqb s "500" then Some 500
  else if String.eqb s "600" then Some 600
  else if String.eqb s "47" then Some 47
  else if String.eqb s "200" then Some 200
  else None.

(** * Properties *)

Local Open Scope R_scope.

(** ** The modelled library functions on small inputs *)

Ltac decide_comparisons :=
  repeat match goal with
         | |- context [Rlt_dec ?a ?b] => destruct (Rlt_dec a b); try lra
         | |- context [Rgt_dec ?a ?b] => destruct (Rgt_dec a b); try lra
         | |- context [Rle_dec ?a ?b] => destruct (Rle_dec a b); try lra
         end.

Example argmax_first_of_ties : Np.argmax [1; 3; 2; 3] = Some 1%nat.
Proof.
  unfold Np.argmax. simpl. decide_comparisons. reflexivity.
Qed.

Example argmax_of_nothing : Np.argmax [] = None.
Proof.
  reflexivity.
Qed.

Example argmin_first_of_ties : Np.argmin [2; 1; 4; 1] = Some 1%nat.
Proof.
  unfold Np.argmin. simpl. decide_comparisons. reflexivity.
Qed.

Example linspace_three : Np.linspace 0 1 3 = [0; 1 / 2; 1].
Proof.
  unfold Np.linspace. simpl.
  destruct (Req_EM_T ((1 - 0) / (1 + 1)) 0) as [E|_]; [lra|].
  simpl. f_equal; [lra|]. f_equal. lra.
Qed.

Example linspace_one : Np.linspace 3 7 1 = [3].
Proof.
  unfold Np.linspace. simpl. f_equal. lra.
Qed.

Example arctan2_quadrants :
  Np.arctan2 0 1 = 0 /\ Np.arctan2 0 (-1) = PI
  /\ Np.arctan2 1 0 = PI / 2 /\ Np.arctan2 (-1) 0 = - (PI / 2).
Proof.
  unfold Np.arctan2. repeat split; decide_comparisons.
  - unfold Rdiv. rewrite Rmult_0_l. apply atan_0.
  - unfold Rdiv. rewrite Rmult_0_l, atan_0. lra.
Qed.

Example strip_then_lower : lower (strip "  LoGarithmic ") = "logarithmic".
Proof.
  reflexivity.
Qed.

Example strip_keeps_inner_space : strip " y es " = "y es".
Proof.
  reflexivity.
Qed.

Example cli_defaults :
  cli_use_log ["prog"; "500"; "600"; "47"; "200"] = true
  /\ cli_show_phase ["prog"; "500"; "600"; "47"; "200"; "linear"] = true
  /\ cli_use_log ["prog"; "500"; "600"; "47"; "200"; "linear"] = false.
Proof.
  repeat split; reflexivity.
Qed.

(** ** Lists as arrays *)

Section Arrays.

Context {A B D : Type}.

Lemma nth_map_lt (f : A -> B) (l : list A) (i : nat) (d : B) (d' : A) :
  (i < List.length l)%nat -> nth i (map f l) d = f (nth i l d').
Proof.
  intros Hi.
  rewrite (nth_indep (map f l) d (f d')) by (rewrite length_map; exact Hi).
  apply map_nth.
Qed.

Lemma zip_with_map {E : Type} (f : B -> D -> E) (g : A -> B) (h : A -> D)
  (l : list A) :
  Np.zip_with f (map g l) (map h l) = map (fun x => f (g x) (h x)) l.
Proof.
  unfold Np.zip_with.
  induction l as [|x l IH]; simpl; [reflexivity|].
  f_equal. exact IH.
Qed.

End Arrays.

Lemma set_last_length (l : list R) (v : R) :
  List.length (Np.set_last l v) = List.length l.
Proof.
  induction l as [|x [|y tl] IH]; simpl in *; try reflexivity.
  f_equal. exact IH.
Qed.

Lemma set_last_nth (l : list R) (v d : R) (i : nat) :
  (i < List.length l)%nat ->
  nth i (Np.set_last l v) d =
  if (S i =? List.length l)%nat then v else nth i l d.
Proof.
  revert i.
  induction l as [|x [|y tl] IH]; intros i Hi.
  - simpl in Hi. lia.
  - simpl in Hi. assert (i = 0%nat) by lia. subst i. reflexivity.
  - destruct i as [|i].
    + reflexivity.
    + change (nth (S i) (Np.set_last (x :: y :: tl) v) d)
        with (nth i (Np.set_last (y :: tl) v) d).
      rewrite IH by (simpl in *; lia).
      reflexivity.
Qed.

(** ** linspace and logspace *)

Lemma linspace_length (a b : R) (n : nat) :
  List.length (Np.linspace a b n) = n.
Proof.
  unfold Np.linspace.
  destruct (1 <? n)%nat; [rewrite set_last_length|];
    destruct (0 <? n - 1)%nat; try destruct (Req_EM_T _ _);
    rewrite !length_map, length_seq; reflexivity.
Qed.

Lemma INR_pred_pos (n : nat) : (2 <= n)%nat -> 0 < INR (n - 1).
Proof.
  intros Hn. apply lt_0_INR. lia.
Qed.

Lemma linspace_nth (a b d : R) (n i : nat) :
  (2 <= n)%nat -> (i < n)%nat ->
  nth i (Np.linspace a b n) d = a + INR i * ((b - a) / INR (n - 1)).
Proof.
  intros Hn Hi.
  pose proof (INR_pred_pos n Hn) as Hpos.
  unfold Np.linspace.
  assert (H1 : (1 <? n)%nat = true) by (apply Nat.ltb_lt; lia).
  assert (H0 : (0 <? n - 1)%nat = true) by (apply Nat.ltb_lt; lia).
  rewrite H1, H0.
  rewrite set_last_nth
    by (destruct (Req_EM_T _ _); rewrite !length_map, length_seq; exact Hi).
  assert (Hlen : forall f g : R -> R,
             List.length (map g (map f (map INR (seq 0 n)))) = n)
    by (intros; rewrite !length_map, length_seq; reflexivity).
  assert (Hnth : forall f g : R -> R,
             nth i (map g (map f (map INR (seq 0 n)))) d = g (f (INR i))).
  { intros f g.
    rewrite (nth_map_lt g _ i d 0) by (rewrite !length_map, length_seq; lia).
    rewrite (nth_map_lt f _ i 0 0) by (rewrite !length_map, length_seq; lia).
    rewrite (nth_map_lt INR _ i 0 0%nat) by (rewrite length_seq; lia).
    rewrite seq_nth by lia. reflexivity. }
  destruct (Req_EM_T ((b - a) / INR (n - 1)) 0) as [Hz|Hnz].
  - rewrite Hlen, Hnth.
    assert (Hba : b - a = 0).
    { apply (Rmult_eq_reg_r (/ INR (n - 1))).
      - unfold Rdiv in Hz. rewrite Hz. ring.
      - apply Rinv_neq_0_compat. lra. }
    rewrite Hz, Hba.
    destruct (S i =? n)%nat; lra.
  - rewrite Hlen, Hnth.
    destruct (S i =? n)%nat eqn:E.
    + apply Nat.eqb_eq in E.
      replace (n - 1)%nat with i by lia.
      replace (n - 1)%nat with i in Hpos by lia.
      field. lra.
    + lra.
Qed.

Lemma logspace_length (a b : R) (n : nat) :
  List.length (Np.logspace a b n) = n.
Proof.
  unfold Np.logspace. rewrite length_map. apply linspace_length.
Qed.

Lemma logspace_nth (a b d : R) (n i : nat) :
  (2 <= n)%nat -> (i < n)%nat ->
  nth i (Np.logspace a b n) d =
  Rpower 10 (a + INR i * ((b - a) / INR (n - 1))).
Proof.
  intros Hn Hi.
  unfold Np.logspace.
  rewrite (nth_map_lt _ _ i d 0) by (rewrite linspace_length; exact Hi).
  rewrite linspace_nth by assumption.
  reflexivity.
Qed.

(** Every sample of a logspace sweep is positive, whatever the bounds. *)
Lemma logspace_pos (a b d : R) (n i : nat) :
  (i < n)%nat -> 0 < nth i (Np.logspace a b n) d.
Proof.
  intros Hi.
  unfold Np.logspace.
  rewrite (nth_map_lt _ _ i d 0) by (rewrite linspace_length; exact Hi).
  unfold Np.power, Rpower. apply exp_pos.
Qed.

(** ** The calculator, element by element *)

Lemma ln10_pos : 0 < ln 10.
Proof.
  rewrite <- ln_1. apply ln_increasing; lra.
Qed.

Lemma H_arr_pointwise (R_cart R_load L C : R) (omega : list R) :
  H_arr (Z_load_arr R_load (Z_cap_arr C omega)) (Z_cart_arr R_cart L omega)
  = map (H_at R_cart R_load L C) omega.
Proof.
  unfold H_arr, Z_load_arr, Z_cap_arr, Z_cart_arr.
  rewrite map_map, zip_with_map.
  reflexivity.
Qed.

Lemma calculator_pointwise (L_mH R_c R_l_k C_pF : R) (rng : R * R) (n : nat) :
  let r := cartridge_frequency_response L_mH R_c R_l_k C_pF rng n in
  let Hw := fun f => H_at R_c (ohms R_l_k) (henries L_mH) (farads C_pF)
                          (2 * PI * f) in
  frequencies r = Np.logspace (Np.log10 (fst rng)) (Np.log10 (snd rng)) n
  /\ magnitude_dB r = map (fun f => 20 * Np.log10 (Cabs (Hw f))) (frequencies r)
  /\ phase_deg r = map (fun f => Np.angle (Hw f) * 180 / PI) (frequencies r).
Proof.
  unfold cartridge_frequency_response; cbn [frequencies magnitude_dB phase_deg].
  rewrite H_arr_pointwise.
  unfold omega_arr. rewrite !map_map.
  repeat split; reflexivity.
Qed.

Lemma calculator_lengths (L_mH R_c R_l_k C_pF : R) (rng : R * R) (n : nat) :
  let r := cartridge_frequency_response L_mH R_c R_l_k C_pF rng n in
  List.length (frequencies r) = n
  /\ List.length (magnitude_dB r) = n
  /\ List.length (phase_deg r) = n.
Proof.
  intros r.
  destruct (calculator_pointwise L_mH R_c R_l_k C_pF rng n) as (Hf & Hm & Hp).
  fold r in Hf, Hm, Hp.
  assert (Hlen : List.length (frequencies r) = n)
    by (rewrite Hf; apply logspace_length).
  rewrite Hm, Hp, !length_map. auto.
Qed.

(** ** The frequency sweep *)

Lemma ln_quotient (x y : R) : 0 < x -> 0 < y -> ln (y / x) = ln y - ln x.
Proof.
  intros Hx Hy. unfold Rdiv.
  rewrite ln_mult by (try apply Rinv_0_lt_compat; assumption).
  rewrite ln_Rinv by assumption. ring.
Qed.

Lemma sweep_exponent (lo hi : R) (n i : nat) :
  0 < lo -> 0 < hi -> (2 <= n)%nat ->
  Rpower 10 (Np.log10 lo
             + INR i * ((Np.log10 hi - Np.log10 lo) / INR (n - 1)))
  = lo * Rpower (hi / lo) (INR i / (INR n - 1)).
Proof.
  intros Hlo Hhi Hn.
  pose proof ln10_pos as H10.
  pose proof (INR_pred_pos n Hn) as Hpos.
  assert (Hpred : INR (n - 1) = INR n - 1)
    by (rewrite minus_INR by lia; reflexivity).
  rewrite <- Hpred.
  unfold Rpower. rewrite ln_quotient by assumption.
  rewrite <- (exp_ln lo Hlo) at 3.
  rewrite <- exp_plus. f_equal.
  unfold Np.log10. field. lra.
Qed.

Lemma frequencies_nth (L_mH R_c R_l_k C_pF lo hi : R) (n i : nat) :
  0 < lo -> 0 < hi -> (2 <= n)%nat -> (i < n)%nat ->
  nth i (frequencies
           (cartridge_frequency_response L_mH R_c R_l_k C_pF (lo, hi) n)) 0
  = lo * Rpower (hi / lo) (INR i / (INR n - 1)).
Proof.
  intros Hlo Hhi Hn Hi.
  destruct (calculator_pointwise L_mH R_c R_l_k C_pF (lo, hi) n) as (Hf & _).
  rewrite Hf. cbn [fst snd].
  rewrite logspace_nth by assumption.
  apply sweep_exponent; assumption.
Qed.

Lemma frequencies_pos (L_mH R_c R_l_k C_pF : R) (rng : R * R) (n i : nat) :
  (i < n)%nat ->
  0 < nth i (frequencies
               (cartridge_frequency_response L_mH R_c R_l_k C_pF rng n)) 0.
Proof.
  intros Hi.
  destruct (calculator_pointwise L_mH R_c R_l_k C_pF rng n) as (Hf & _).
  rewrite Hf. apply logspace_pos. exact Hi.
Qed.

Lemma geometric_increasing (lo hi : R) (n i j : nat) :
  0 < lo -> lo < hi -> (2 <= n)%nat -> (i < j)%nat ->
  lo * Rpower (hi / lo) (INR i / (INR n - 1))
  < lo * Rpower (hi / lo) (INR j / (INR n - 1)).
Proof.
  intros Hlo Hhi Hn Hij.
  apply Rmult_lt_compat_l; [exact Hlo|].
  assert (Hn1 : 0 < INR n - 1).
  { pose proof (INR_pred_pos n Hn) as Hp.
    rewrite minus_INR in Hp by lia. exact Hp. }
  apply Rpower_lt.
  - apply (Rmult_lt_reg_r lo); [exact Hlo|].
    unfold Rdiv. rewrite Rmult_assoc, Rinv_l by lra. lra.
  - unfold Rdiv. apply Rmult_lt_compat_r.
    + apply Rinv_0_lt_compat. exact Hn1.
    + apply lt_INR. exact Hij.
Qed.

(** ** Complex arithmetic *)

Lemma C_eq (a b : C) : Re a = Re b -> Im a = Im b -> a = b.
Proof.
  destruct a, b; simpl; intros -> ->; reflexivity.
Qed.

Lemma Cnorm2_nonneg (z : C) : 0 <= Cnorm2 z.
Proof.
  unfold Cnorm2. nra.
Qed.

Lemma Cnorm2_pos (z : C) : z <> RtoC 0 -> 0 < Cnorm2 z.
Proof.
  intros Hz.
  destruct (Rle_lt_or_eq_dec _ _ (Cnorm2_nonneg z)) as [Hlt|Heq];
    [exact Hlt|].
  exfalso. apply Hz. unfold Cnorm2 in Heq.
  apply C_eq; simpl; nra.
Qed.

Lemma C_neq_0_Re (z : C) : Re z <> 0 -> z <> RtoC 0.
Proof.
  intros H E. apply H. rewrite E. reflexivity.
Qed.

Lemma C_neq_0_Im (z : C) : Im z <> 0 -> z <> RtoC 0.
Proof.
  intros H E. apply H. rewrite E. reflexivity.
Qed.

Lemma Cnorm2_div (a b : C) :
  b <> RtoC 0 -> Cnorm2 (Cdiv a b) = Cnorm2 a / Cnorm2 b.
Proof.
  intros Hb. pose proof (Cnorm2_pos b Hb) as Hp.
  unfold Cdiv. unfold Cnorm2 at 1. cbn [Re Im].
  unfold Cnorm2 in *. field. lra.
Qed.

(** The product [1j * w * x] of the code is the imaginary number [w x]. *)
Lemma j_omega_times (w x : R) :
  Cmul (Cmul Ci (RtoC w)) (RtoC x) = mkC 0 (w * x).
Proof.
  apply C_eq; simpl; ring.
Qed.

Lemma Z_cart_at_spec (R_cart L w : R) :
  Z_cart_at R_cart L w = Z_cart_spec R_cart L w.
Proof.
  unfold Z_cart_at, Z_cart_spec. rewrite j_omega_times.
  apply C_eq; simpl; ring.
Qed.

Lemma Z_cap_at_closed (C w : R) :
  w * C <> 0 -> Z_cap_at C w = mkC 0 (- / (w * C)).
Proof.
  intros H. unfold Z_cap_at. rewrite j_omega_times.
  apply C_eq; unfold Cdiv, Cnorm2; simpl; field;
    split; intros E; apply H; rewrite E; ring.
Qed.

Lemma Z_load_at_spec (R_load C w : R) :
  0 < R_load -> 0 < C -> 0 < w ->
  Z_load_at R_load C w = Z_load_spec R_load C w.
Proof.
  intros HR HC Hw.
  assert (HwC : 0 < w * C) by nra.
  unfold Z_load_at, Z_load_spec.
  rewrite Z_cap_at_closed by lra.
  assert (Hd : 0 < 1 + (w * R_load * C) * (w * R_load * C)) by nra.
  apply C_eq; unfold Cdiv, Cmul, Cadd, Cnorm2, RtoC; cbn [Re Im];
    field; split; nra.
Qed.

Lemma Z_load_spec_closed (R_load C w : R) :
  Z_load_spec R_load C w
  = mkC (R_load / (1 + (w * R_load * C) * (w * R_load * C)))
        (- (w * R_load * R_load * C)
           / (1 + (w * R_load * C) * (w * R_load * C))).
Proof.
  assert (Hd : 0 < 1 + (w * R_load * C) * (w * R_load * C)) by nra.
  unfold Z_load_spec.
  apply C_eq; unfold Cdiv, Cnorm2, RtoC; cbn [Re Im]; field; lra.
Qed.

Lemma H_at_spec (R_cart R_load L C w : R) :
  0 < R_load -> 0 < C -> 0 < w ->
  H_at R_cart R_load L C w = H_spec R_cart R_load L C w.
Proof.
  intros HR HC Hw. unfold H_at, H_spec.
  rewrite Z_cart_at_spec, Z_load_at_spec by assumption.
  reflexivity.
Qed.

(** ** The angle function *)

Lemma atan_nonpos (t : R) : t <= 0 -> atan t <= 0.
Proof.
  intros [Hlt|Heq].
  - rewrite <- atan_0. left. apply atan_increasing. exact Hlt.
  - rewrite Heq, atan_0. lra.
Qed.

Lemma atan_pos (t : R) : 0 < t -> 0 < atan t.
Proof.
  intros Ht. rewrite <- atan_0. apply atan_increasing. exact Ht.
Qed.

Lemma quotient_neg_nonneg (y x : R) : x < 0 -> 0 <= y -> y / x <= 0.
Proof.
  intros Hx Hy. unfold Rdiv.
  pose proof (Rinv_lt_0_compat x Hx). nra.
Qed.

Lemma quotient_neg_neg (y x : R) : x < 0 -> y < 0 -> 0 < y / x.
Proof.
  intros Hx Hy. unfold Rdiv.
  pose proof (Rinv_lt_0_compat x Hx). nra.
Qed.

(** The principal value: [arctan2] lies in (-pi, pi]. *)
Lemma arctan2_range (y x : R) : - PI < Np.arctan2 y x <= PI.
Proof.
  pose proof PI_RGT_0 as Hpi.
  pose proof (atan_bound (y / x)) as [Hlo Hhi].
  unfold Np.arctan2.
  destruct (Rlt_dec 0 x) as [Hx|Hx]; [lra|].
  destruct (Rlt_dec x 0) as [Hx'|Hx'].
  - destruct (Rle_dec 0 y) as [Hy|Hy].
    + pose proof (atan_nonpos _ (quotient_neg_nonneg y x Hx' Hy)). lra.
    + assert (Hy' : y < 0) by lra.
      pose proof (atan_pos _ (quotient_neg_neg y x Hx' Hy')). lra.
  - destruct (Rlt_dec 0 y); [lra|].
    destruct (Rlt_dec y 0); lra.
Qed.

(** [arctan2] is the angle of the point: in polar form the point is its
    distance from the origin times the cosine and the sine of that angle. *)
Lemma hypot_factor (y x : R) :
  x <> 0 -> sqrt (x * x + y * y) = Rabs x * sqrt (1 + (y / x)²).
Proof.
  intros Hx.
  replace (x * x + y * y) with (x² * (1 + (y / x)²))
    by (unfold Rsqr; field; exact Hx).
  rewrite sqrt_mult.
  - rewrite sqrt_Rsqr_abs. reflexivity.
  - apply Rle_0_sqr.
  - pose proof (Rle_0_sqr (y / x)). lra.
Qed.

Lemma root_one_plus_square_pos (t : R) : 0 < sqrt (1 + t²).
Proof.
  apply sqrt_lt_R0. pose proof (Rle_0_sqr t). lra.
Qed.

Lemma arctan2_polar (y x : R) :
  sqrt (x * x + y * y) * cos (Np.arctan2 y x) = x
  /\ sqrt (x * x + y * y) * sin (Np.arctan2 y x) = y.
Proof.
  unfold Np.arctan2.
  destruct (Rlt_dec 0 x) as [Hx|Hx].
  - rewrite hypot_factor by lra. rewrite Rabs_right by lra.
    rewrite cos_atan, sin_atan.
    pose proof (root_one_plus_square_pos (y / x)).
    split; field; lra.
  - destruct (Rlt_dec x 0) as [Hx'|Hx'].
    + rewrite hypot_factor by lra. rewrite Rabs_left by lra.
      pose proof (root_one_plus_square_pos (y / x)).
      destruct (Rle_dec 0 y) as [Hy|Hy].
      * rewrite neg_cos, neg_sin, cos_atan, sin_atan.
        split; field; lra.
      * rewrite cos_minus, sin_minus, cos_PI, sin_PI, cos_atan, sin_atan.
        split; field; lra.
    + assert (E : x = 0) by lra. subst x.
      replace (0 * 0 + y * y) with (y * y) by ring.
      destruct (Rlt_dec 0 y) as [Hy|Hy].
      * rewrite sqrt_square by lra. rewrite cos_PI2, sin_PI2. lra.
      * destruct (Rlt_dec y 0) as [Hy'|Hy'].
        -- replace (y * y) with ((- y) * (- y)) by ring.
           rewrite sqrt_square by lra.
           rewrite cos_neg, sin_neg, cos_PI2, sin_PI2. lra.
        -- assert (E : y = 0) by lra. subst y.
           rewrite Rmult_0_l, sqrt_0. lra.
Qed.

Lemma degrees_range (a : R) :
  - PI < a <= PI -> -180 < a * 180 / PI <= 180.
Proof.
  intros [Hlo Hhi].
  pose proof PI_RGT_0 as Hpi.
  assert (Hinv : 0 < / PI) by (apply Rinv_0_lt_compat; exact Hpi).
  assert (E : forall k, k * PI * 180 / PI = k * 180)
    by (intros k; field; lra).
  split.
  - replace (-180) with ((-1) * PI * 180 / PI) by (rewrite E; ring).
    unfold Rdiv. apply Rmult_lt_compat_r; [exact Hinv|]. nra.
  - replace 180 with (1 * PI * 180 / PI) at 2 by (rewrite E; ring).
    unfold Rdiv. apply Rmult_le_compat_r; [lra|]. nra.
Qed.

(** ** Denominators of the transfer function *)

Section ValidCircuit.

Variables R_cart R_load L C w : R.
Hypothesis R_cart_nonneg : 0 <= R_cart.
Hypothesis R_load_pos : 0 < R_load.
Hypothesis C_pos : 0 < C.
Hypothesis w_pos : 0 < w.

Lemma j_omega_C_nonzero : Cmul (Cmul Ci (RtoC w)) (RtoC C) <> RtoC 0.
Proof.
  rewrite j_omega_times. apply C_neq_0_Im. simpl. nra.
Qed.

Lemma Z_cap_imaginary : Re (Z_cap_at C w) = 0.
Proof.
  rewrite Z_cap_at_closed by nra. reflexivity.
Qed.

Lemma parallel_denominator_nonzero :
  Cadd (RtoC R_load) (Z_cap_at C w) <> RtoC 0.
Proof.
  apply C_neq_0_Re. cbn [Cadd Re RtoC].
  rewrite Z_cap_imaginary. lra.
Qed.

Lemma Z_load_Re_pos : 0 < Re (Z_load_at R_load C w).
Proof.
  rewrite Z_load_at_spec by assumption.
  rewrite Z_load_spec_closed. cbn [Re].
  apply Rdiv_lt_0_compat; nra.
Qed.

Lemma divider_Re_pos :
  0 < Re (Cadd (Z_cart_at R_cart L w) (Z_load_at R_load C w)).
Proof.
  pose proof Z_load_Re_pos.
  rewrite Z_cart_at_spec. cbn [Cadd Re Z_cart_spec]. lra.
Qed.

Lemma divider_nonzero :
  Cadd (Z_cart_at R_cart L w) (Z_load_at R_load C w) <> RtoC 0.
Proof.
  apply C_neq_0_Re. pose proof divider_Re_pos. lra.
Qed.

Lemma H_norm2_pos : 0 < Cnorm2 (H_at R_cart R_load L C w).
Proof.
  unfold H_at. rewrite Cnorm2_div by exact divider_nonzero.
  apply Rdiv_lt_0_compat.
  - apply Cnorm2_pos, C_neq_0_Re. pose proof Z_load_Re_pos. lra.
  - apply Cnorm2_pos, divider_nonzero.
Qed.

Lemma H_abs_pos : 0 < Cabs (H_at R_cart R_load L C w).
Proof.
  unfold Cabs. apply sqrt_lt_R0, H_norm2_pos.
Qed.

End ValidCircuit.

Lemma finite_Cdiv_some (a b : C) :
  b <> RtoC 0 -> finite_Cdiv a b = Some (Cdiv a b).
Proof.
  intros Hb. unfold finite_Cdiv.
  destruct (Req_EM_T (Cnorm2 b) 0) as [E|_]; [|reflexivity].
  pose proof (Cnorm2_pos b Hb). lra.
Qed.

(** On a valid circuit and a positive angular frequency the checked
    evaluation returns the magnitude and the phase of the unchecked one. *)
Lemma checked_sample_some (R_cart R_load L C w : R) :
  0 <= R_cart -> 0 < R_load -> 0 < C -> 0 < w ->
  checked_sample R_cart R_load L C w
  = Some (20 * Np.log10 (Cabs (H_at R_cart R_load L C w)),
          Np.angle (H_at R_cart R_load L C w) * 180 / PI).
Proof.
  intros HRc HR HC Hw. unfold checked_sample.
  rewrite finite_Cdiv_some by (apply j_omega_C_nonzero; assumption).
  cbn [and_then]. fold (Z_cap_at C w).
  rewrite finite_Cdiv_some
    by (apply parallel_denominator_nonzero; assumption).
  cbn [and_then]. fold (Z_load_at R_load C w). fold (Z_cart_at R_cart L w).
  rewrite finite_Cdiv_some by (apply divider_nonzero; assumption).
  cbn [and_then]. fold (H_at R_cart R_load L C w).
  unfold finite_log10.
  destruct (Rlt_dec 0 (Cabs (H_at R_cart R_load L C w))) as [_|Hn];
    [|exfalso; apply Hn; apply H_abs_pos; assumption].
  cbn [and_then]. unfold finite_div.
  destruct (Req_EM_T PI 0) as [E|_]; [exfalso; exact (PI_neq0 E)|].
  reflexivity.
Qed.

(** With no capacitance the first quotient of the calculator is by zero. *)
Example checked_sample_zero_capacitance :
  checked_sample 600 47000 (1 / 2) 0 100 = None.
Proof.
  unfold checked_sample, finite_Cdiv at 1.
  destruct (Req_EM_T _ 0) as [_|Hn]; [reflexivity|].
  exfalso. apply Hn. unfold Cnorm2. simpl. ring.
Qed.

(** ** Elements of the calculator's arrays *)

Section Elements.

Variables L_mH R_c R_l_k C_pF : R.
Variable rng : R * R.
Variable n : nat.
Variable i : nat.
Hypothesis i_lt_n : (i < n)%nat.

Let r := cartridge_frequency_response L_mH R_c R_l_k C_pF rng n.
Let omega := omega_arr (frequencies r).
Let w := 2 * PI * nth i (frequencies r) 0.

Lemma frequencies_length : List.length (frequencies r) = n.
Proof.
  apply (calculator_lengths L_mH R_c R_l_k C_pF rng n).
Qed.

Lemma omega_nth : nth i omega 0 = w.
Proof.
  unfold omega, omega_arr.
  apply nth_map_lt. rewrite frequencies_length. exact i_lt_n.
Qed.

Lemma omega_length : List.length omega = n.
Proof.
  unfold omega, omega_arr. rewrite length_map. apply frequencies_length.
Qed.

Lemma omega_pos : 0 < w.
Proof.
  pose proof (frequencies_pos L_mH R_c R_l_k C_pF rng n i i_lt_n) as Hf.
  fold r in Hf. pose proof PI_RGT_0. unfold w. nra.
Qed.

Lemma Z_cart_nth (d : C) :
  nth i (Z_cart_arr R_c (henries L_mH) omega) d
  = Z_cart_at R_c (henries L_mH) w.
Proof.
  unfold Z_cart_arr. rewrite (nth_map_lt _ _ i d 0)
    by (rewrite omega_length; exact i_lt_n).
  rewrite omega_nth. reflexivity.
Qed.

Lemma Z_cap_nth (d : C) :
  nth i (Z_cap_arr (farads C_pF) omega) d = Z_cap_at (farads C_pF) w.
Proof.
  unfold Z_cap_arr. rewrite (nth_map_lt _ _ i d 0)
    by (rewrite omega_length; exact i_lt_n).
  rewrite omega_nth. reflexivity.
Qed.

Lemma Z_load_nth (d : C) :
  nth i (Z_load_arr (ohms R_l_k) (Z_cap_arr (farads C_pF) omega)) d
  = Z_load_at (ohms R_l_k) (farads C_pF) w.
Proof.
  unfold Z_load_arr, Z_cap_arr. rewrite map_map.
  rewrite (nth_map_lt _ _ i d 0) by (rewrite omega_length; exact i_lt_n).
  rewrite omega_nth. reflexivity.
Qed.

Lemma H_nth (d : C) :
  nth i (H_arr (Z_load_arr (ohms R_l_k) (Z_cap_arr (farads C_pF) omega))
               (Z_cart_arr R_c (henries L_mH) omega)) d
  = H_at R_c (ohms R_l_k) (henries L_mH) (farads C_pF) w.
Proof.
  rewrite H_arr_pointwise.
  rewrite (nth_map_lt _ _ i d 0) by (rewrite omega_length; exact i_lt_n).
  rewrite omega_nth. reflexivity.
Qed.

Lemma magnitude_nth :
  nth i (magnitude_dB r) 0
  = 20 * Np.log10
           (Cabs (H_at R_c (ohms R_l_k) (henries L_mH) (farads C_pF) w)).
Proof.
  destruct (calculator_pointwise L_mH R_c R_l_k C_pF rng n) as (_ & Hm & _).
  fold r in Hm. rewrite Hm.
  rewrite (nth_map_lt _ _ i 0 0) by (rewrite frequencies_length; exact i_lt_n).
  reflexivity.
Qed.

Lemma phase_nth :
  nth i (phase_deg r) 0
  = Np.angle (H_at R_c (ohms R_l_k) (henries L_mH) (farads C_pF) w)
    * 180 / PI.
Proof.
  destruct (calculator_pointwise L_mH R_c R_l_k C_pF rng n) as (_ & _ & Hp).
  fold r in Hp. rewrite Hp.
  rewrite (nth_map_lt _ _ i 0 0) by (rewrite frequencies_length; exact i_lt_n).
  reflexivity.
Qed.

End Elements.

(** * The claims about the calculator *)

(** C1. On valid input, sample i of the magnitude array is
    20 log10 |H(w_i)| and sample i of the phase array is
    atan2(Im H(w_i), Re H(w_i)) * 180 / pi, a value in (-180, 180], where
    w_i = 2 pi frequencies[i] and H is the specification's transfer function
    with the closed-form load impedance R_load / (1 + i w R_load C), after
    conversion to henries, ohms and farads; the parallel combination that
    the code computes for the load equals that closed form at every swept
    frequency. *)
Theorem C1_transfer_function
  (L_cart_mH R_cart_ohms R_load_kohms C_total_pF low_Hz high_Hz : R)
  (num_points i : nat) :
  0 < L_cart_mH -> 0 < C_total_pF -> 0 < R_load_kohms -> 0 <= R_cart_ohms ->
  0 < low_Hz -> 0 < high_Hz -> (i < num_points)%nat ->
  let r := cartridge_frequency_response
             L_cart_mH R_cart_ohms R_load_kohms C_total_pF
             (low_Hz, high_Hz) num_points in
  let L := L_cart_mH * (1 / 1000) in
  let R_load := R_load_kohms * 1000 in
  let C := C_total_pF * (1 / 1000000000000) in
  let w := 2 * PI * nth i (frequencies r) 0 in
  let H := H_spec R_cart_ohms R_load L C w in
  nth i (magnitude_dB r) 0 = 20 * Np.log10 (Cabs H)
  /\ nth i (phase_deg r) 0 = Np.arctan2 (Im H) (Re H) * 180 / PI
  /\ -180 < nth i (phase_deg r) 0 <= 180
  /\ nth i (Z_load_arr R_load (Z_cap_arr C (omega_arr (frequencies r))))
         (RtoC 0)
     = Z_load_spec R_load C w.
Proof.
  intros HL HC HR HRc Hlo Hhi Hi r L R_load C w H.
  assert (HRl : 0 < R_load) by (unfold R_load; lra).
  assert (HCf : 0 < C) by (unfold C; lra).
  pose proof (omega_pos L_cart_mH R_cart_ohms R_load_kohms C_total_pF
                (low_Hz, high_Hz) num_points i Hi) as Hw.
  fold r in Hw. fold w in Hw.
  assert (EH : H_at R_cart_ohms R_load L C w = H)
    by (apply H_at_spec; assumption).
  pose proof (magnitude_nth L_cart_mH R_cart_ohms R_load_kohms C_total_pF
                (low_Hz, high_Hz) num_points i Hi) as Em.
  pose proof (phase_nth L_cart_mH R_cart_ohms R_load_kohms C_total_pF
                (low_Hz, high_Hz) num_points i Hi) as Ep.
  fold r in Em, Ep. fold w in Em, Ep.
  unfold ohms, henries, farads in Em, Ep.
  fold R_load L C in Em, Ep.
  rewrite EH in Em, Ep.
  repeat split.
  - exact Em.
  - exact Ep.
  - rewrite Ep. apply degrees_range, arctan2_range.
  - rewrite Ep. apply degrees_range, arctan2_range.
  - pose proof (Z_load_nth L_cart_mH R_cart_ohms R_load_kohms C_total_pF
                  (low_Hz, high_Hz) num_points i Hi (RtoC 0)) as El.
    fold r in El. fold w in El.
    unfold ohms, farads in El. fold R_load C in El.
    rewrite El. apply Z_load_at_spec; assumption.
Qed.

(** The first sample of the audible sweep of the default circuit. *)
Lemma C1_transfer_function_witness :
  -180 < nth 0 (phase_deg (cartridge_frequency_response
                             500 600 47 200 (20, 20000) 2000)) 0 <= 180.
Proof.
  refine (proj1 (proj2 (proj2
    (C1_transfer_function 500 600 47 200 20 20000 2000 0 _ _ _ _ _ _ _))));
    try lra.
  apply Nat.lt_0_succ.
Defined.

(** C7. On valid input no division of the transfer-function computation has
    a zero denominator at any swept frequency: the angular frequency is
    positive, [1j * w * C] is not zero, the capacitor impedance is purely
    imaginary so that [R_load + Z_cap] is not zero, [Z_cart + Z_load] has a
    strictly positive real part, and |H| is strictly positive, so that the
    logarithm of the magnitude is taken of a positive number; the
    evaluation that checks every division and the logarithm returns the
    magnitude and the phase of the sample. *)
Theorem C7_no_zero_denominator
  (L_cart_mH R_cart_ohms R_load_kohms C_total_pF low_Hz high_Hz : R)
  (num_points i : nat) :
  0 < L_cart_mH -> 0 < C_total_pF -> 0 < R_load_kohms -> 0 <= R_cart_ohms ->
  0 < low_Hz -> 0 < high_Hz -> (i < num_points)%nat ->
  let r := cartridge_frequency_response
             L_cart_mH R_cart_ohms R_load_kohms C_total_pF
             (low_Hz, high_Hz) num_points in
  let L := L_cart_mH * (1 / 1000) in
  let R_load := R_load_kohms * 1000 in
  let C := C_total_pF * (1 / 1000000000000) in
  let omega := omega_arr (frequencies r) in
  let Z_cart := Z_cart_arr R_cart_ohms L omega in
  let Z_cap := Z_cap_arr C omega in
  let Z_load := Z_load_arr R_load Z_cap in
  let H := H_arr Z_load Z_cart in
  let z := RtoC 0 in
  0 < nth i omega 0
  /\ Cmul (Cmul Ci (RtoC (nth i omega 0))) (RtoC C) <> RtoC 0
  /\ Re (nth i Z_cap z) = 0
  /\ Cadd (RtoC R_load) (nth i Z_cap z) <> RtoC 0
  /\ 0 < Re (Cadd (nth i Z_cart z) (nth i Z_load z))
  /\ Cadd (nth i Z_cart z) (nth i Z_load z) <> RtoC 0
  /\ 0 < Cabs (nth i H z)
  /\ nth i (magnitude_dB r) 0 = 20 * Np.log10 (Cabs (nth i H z))
  /\ nth i (phase_deg r) 0 = Np.angle (nth i H z) * 180 / PI
  /\ PI <> 0
  /\ checked_sample R_cart_ohms R_load L C (nth i omega 0)
     = Some (nth i (magnitude_dB r) 0, nth i (phase_deg r) 0).
Proof.
  intros HL HC HR HRc Hlo Hhi Hi r L R_load C omega Z_cart Z_cap Z_load H z.
  assert (HRl : 0 < R_load) by (unfold R_load; lra).
  assert (HCf : 0 < C) by (unfold C; lra).
  pose proof (omega_pos L_cart_mH R_cart_ohms R_load_kohms C_total_pF
                (low_Hz, high_Hz) num_points i Hi) as Hw.
  unfold H, Z_load, Z_cap, Z_cart, omega, r, L, R_load, C in *.
  change (L_cart_mH * (1 / 1000)) with (henries L_cart_mH) in *.
  change (R_load_kohms * 1000) with (ohms R_load_kohms) in *.
  change (C_total_pF * (1 / 1000000000000)) with (farads C_total_pF) in *.
  rewrite (omega_nth _ _ _ _ _ _ _ Hi).
  rewrite (Z_cart_nth _ _ _ _ _ _ _ Hi).
  rewrite (Z_cap_nth _ _ _ _ _ _ _ Hi).
  rewrite (Z_load_nth _ _ _ _ _ _ _ Hi).
  rewrite (H_nth _ _ _ _ _ _ _ Hi).
  rewrite (magnitude_nth _ _ _ _ _ _ _ Hi).
  rewrite (phase_nth _ _ _ _ _ _ _ Hi).
  repeat split.
  - exact Hw.
  - apply j_omega_C_nonzero; assumption.
  - apply Z_cap_imaginary; assumption.
  - apply parallel_denominator_nonzero; assumption.
  - apply divider_Re_pos; assumption.
  - apply divider_nonzero; assumption.
  - apply H_abs_pos; assumption.
  - apply PI_neq0.
  - apply checked_sample_some; assumption.
Qed.

(** The last sample of the extended sweep of the default circuit. *)
Lemma C7_no_zero_denominator_witness :
  let r := cartridge_frequency_response 500 600 47 200 (20, 50000) 3000 in
  let omega := omega_arr (frequencies r) in
  0 < nth 2999 omega 0.
Proof.
  refine (proj1
    (C7_no_zero_denominator 500 600 47 200 20 50000 3000 2999 _ _ _ _ _ _ _));
    try lra.
  apply Nat.lt_succ_diag_r.
Defined.

(** C3. The quality factor returned on valid input is
    sqrt(L / C) / (R_cart + R_load), with L in henries, C in farads and the
    load resistance converted from kilohms to ohms before the sum; the root
    and the quotient are taken of positive numbers; the value is the same
    for every frequency range and sample count. *)
Theorem C3_quality_factor
  (L_cart_mH R_cart_ohms R_load_kohms C_total_pF : R) :
  0 < L_cart_mH -> 0 < C_total_pF -> 0 < R_load_kohms -> 0 <= R_cart_ohms ->
  let L := L_cart_mH * (1 / 1000) in
  let C := C_total_pF * (1 / 1000000000000) in
  let R_cart := R_cart_ohms in
  let R_load := R_load_kohms * 1000 in
  (forall freq_range num_points,
      Q (cartridge_frequency_response
           L_cart_mH R_cart_ohms R_load_kohms C_total_pF
           freq_range num_points)
      = sqrt (L / C) / (R_cart + R_load))
  /\ (forall range1 count1 range2 count2,
      Q (cartridge_frequency_response
           L_cart_mH R_cart_ohms R_load_kohms C_total_pF range1 count1)
      = Q (cartridge_frequency_response
             L_cart_mH R_cart_ohms R_load_kohms C_total_pF range2 count2))
  /\ 0 < L / C
  /\ 0 < R_cart + R_load.
Proof.
  intros HL HC HR HRc L C R_cart R_load.
  repeat split; try reflexivity.
  - unfold L, C. apply Rdiv_lt_0_compat; lra.
  - unfold R_cart, R_load. lra.
Qed.

(** The default circuit over the audible range. *)
Lemma C3_quality_factor_witness :
  Q (cartridge_frequency_response 500 600 47 200 (20, 20000) 2000)
  = sqrt (500 * (1 / 1000) / (200 * (1 / 1000000000000)))
    / (600 + 47 * 1000).
Proof.
  refine (proj1 (C3_quality_factor 500 600 47 200 _ _ _ _)
            (20, 20000) 2000%nat); lra.
Defined.

(** C4. The ideal resonance returned for positive inductance and capacitance
    is 1 / (2 pi sqrt(L C)), with L in henries and C in farads; the
    denominator is positive; the value is the same for every frequency range
    and sample count. *)
Theorem C4_ideal_resonance
  (L_cart_mH R_cart_ohms R_load_kohms C_total_pF : R) :
  0 < L_cart_mH -> 0 < C_total_pF ->
  let L := L_cart_mH * (1 / 1000) in
  let C := C_total_pF * (1 / 1000000000000) in
  (forall freq_range num_points,
      f_res_ideal (cartridge_frequency_response
                     L_cart_mH R_cart_ohms R_load_kohms C_total_pF
                     freq_range num_points)
      = 1 / (2 * PI * sqrt (L * C)))
  /\ (forall range1 count1 range2 count2,
      f_res_ideal (cartridge_frequency_response
                     L_cart_mH R_cart_ohms R_load_kohms C_total_pF
                     range1 count1)
      = f_res_ideal (cartridge_frequency_response
                       L_cart_mH R_cart_ohms R_load_kohms C_total_pF
                       range2 count2))
  /\ 0 < 2 * PI * sqrt (L * C).
Proof.
  intros HL HC L C.
  repeat split; try reflexivity.
  pose proof PI_RGT_0 as Hpi.
  assert (0 < sqrt (L * C)) by (apply sqrt_lt_R0; unfold L, C; nra).
  nra.
Qed.

(** The default circuit over the extended range. *)
Lemma C4_ideal_resonance_witness :
  f_res_ideal (cartridge_frequency_response 500 600 47 200 (20, 50000) 3000)
  = 1 / (2 * PI * sqrt (500 * (1 / 1000) * (200 * (1 / 1000000000000)))).
Proof.
  refine (proj1 (C4_ideal_resonance 500 600 47 200 _ _)
            (20, 50000) 3000%nat); lra.
Defined.

(** ** argmax and argmin *)

Lemma argmax_from_spec (l : list R) :
  forall (i bi : nat) (bv : R), (bi < i)%nat ->
  let p := Np.argmax_from l i bi bv in
  let v := if (p <? i)%nat then bv else nth (p - i) l 0 in
  (p = bi \/ (i <= p < i + List.length l)%nat)
  /\ bv <= v
  /\ forall k, (k < List.length l)%nat -> nth k l 0 <= v.
Proof.
  induction l as [|x tl IH]; intros i bi bv Hbi; cbn zeta.
  - simpl Np.argmax_from.
    assert (E : (bi <? i)%nat = true) by (apply Nat.ltb_lt; exact Hbi).
    rewrite E. repeat split; [left; reflexivity | lra |].
    intros k Hk. simpl in Hk. lia.
  - simpl Np.argmax_from.
    destruct (Rlt_dec bv x) as [Hlt|Hge].
    + destruct (IH (S i) i x (Nat.lt_succ_diag_r i)) as (Hp & Hv & Hall).
      set (p := Np.argmax_from tl (S i) i x) in *.
      assert (Hpi : (p <? i)%nat = false) by (apply Nat.ltb_ge; lia).
      rewrite Hpi.
      assert (Ev : nth (p - i) (x :: tl) 0
                   = if (p <? S i)%nat then x else nth (p - S i) tl 0).
      { destruct (p <? S i)%nat eqn:E.
        - apply Nat.ltb_lt in E. replace (p - i)%nat with 0%nat by lia.
          reflexivity.
        - apply Nat.ltb_ge in E.
          replace (p - i)%nat with (S (p - S i)) by lia. reflexivity. }
      rewrite Ev.
      repeat split.
      * right. simpl List.length. lia.
      * lra.
      * intros [|k] Hk; simpl in Hk |- *; [exact Hv | apply Hall; lia].
    + assert (Hbi' : (bi < S i)%nat) by lia.
      destruct (IH (S i) bi bv Hbi') as (Hp & Hv & Hall).
      set (p := Np.argmax_from tl (S i) bi bv) in *.
      assert (Ev : (if (p <? i)%nat then bv else nth (p - i) (x :: tl) 0)
                   = if (p <? S i)%nat then bv else nth (p - S i) tl 0).
      { destruct Hp as [Hp|Hp].
        - assert (E1 : (p <? i)%nat = true) by (apply Nat.ltb_lt; lia).
          assert (E2 : (p <? S i)%nat = true) by (apply Nat.ltb_lt; lia).
          rewrite E1, E2. reflexivity.
        - assert (E1 : (p <? i)%nat = false) by (apply Nat.ltb_ge; lia).
          assert (E2 : (p <? S i)%nat = false) by (apply Nat.ltb_ge; lia).
          rewrite E1, E2.
          replace (p - i)%nat with (S (p - S i)) by lia. reflexivity. }
      rewrite Ev.
      repeat split.
      * destruct Hp as [Hp|Hp]; [left; exact Hp | right].
        simpl List.length. lia.
      * exact Hv.
      * intros [|k] Hk; simpl in Hk |- *; [lra | apply Hall; lia].
Qed.

(** [np.argmax] of a non-empty array returns a position of its global
    maximum. *)
Lemma argmax_is_peak (a : list R) :
  a <> [] -> exists p, Np.argmax a = Some p /\ is_peak a p.
Proof.
  destruct a as [|x tl]; [congruence|]. intros _.
  exists (Np.argmax_from tl 1 0 x). split; [reflexivity|].
  destruct (argmax_from_spec tl 1 0 x Nat.lt_0_1) as (Hp & Hv & Hall).
  set (p := Np.argmax_from tl 1 0 x) in *.
  assert (Ev : (if (p <? 1)%nat then x else nth (p - 1) tl 0)
               = nth p (x :: tl) 0).
  { destruct p as [|p]; simpl.
    - reflexivity.
    - rewrite Nat.sub_0_r. reflexivity. }
  rewrite Ev in Hv, Hall.
  split.
  - simpl List.length. lia.
  - intros [|k] Hk; simpl in Hk.
    + exact Hv.
    + apply (Hall k). lia.
Qed.

Lemma argmin_from_bound (l : list R) :
  forall (i bi : nat) (bv : R), (bi < i)%nat ->
  (Np.argmin_from l i bi bv < i + List.length l)%nat.
Proof.
  induction l as [|x tl IH]; intros i bi bv Hbi; simpl.
  - lia.
  - destruct (Rlt_dec x bv).
    + pose proof (IH (S i) i x (Nat.lt_succ_diag_r i)). lia.
    + assert (Hbi' : (bi < S i)%nat) by lia.
      pose proof (IH (S i) bi bv Hbi'). lia.
Qed.

Lemma argmin_in_range (a : list R) :
  a <> [] -> exists q, Np.argmin a = Some q /\ (q < List.length a)%nat.
Proof.
  destruct a as [|x tl]; [congruence|]. intros _.
  exists (Np.argmin_from tl 1 0 x). split; [reflexivity|].
  pose proof (argmin_from_bound tl 1 0 x Nat.lt_0_1). simpl List.length. lia.
Qed.

Lemma nonempty_of_length {A : Type} (l : list A) (n : nat) :
  List.length l = S n -> l <> [].
Proof.
  intros H E. rewrite E in H. discriminate.
Qed.

(** ** Running the renderer *)

Lemma nth_error_lt (a : list R) (i : nat) :
  (i < List.length a)%nat -> nth_error a i = Some (nth i a 0).
Proof.
  intros Hi. apply nth_error_nth'. exact Hi.
Qed.

(** One step of symbolic execution of the renderer: unfold the monad and the
    primitive actions, leaving the calculator untouched. *)
Ltac run_render :=
  cbv beta iota zeta
      delta [bind emit ret print raise call_calculator np_argmax np_argmin
             index app].

(** What a run of the renderer needs from the two sweeps: a peak of each
    magnitude array, found by argmax, and an in-range argmin. *)
Lemma sweeps_ready (L_cart R_cart R_load C_total : R) :
  let aud := cartridge_frequency_response L_cart R_cart R_load C_total
               (20, 20000) 2000 in
  let ext := cartridge_frequency_response L_cart R_cart R_load C_total
               (20, 50000) 3000 in
  exists p pe q,
    Np.argmax (magnitude_dB aud) = Some p
    /\ is_peak (magnitude_dB aud) p
    /\ Np.argmax (magnitude_dB ext) = Some pe
    /\ is_peak (magnitude_dB ext) pe
    /\ Np.argmin (map (fun f => Rabs (f - f_res_ideal aud)) (frequencies ext))
       = Some q
    /\ nth_error (frequencies aud) p = Some (nth p (frequencies aud) 0)
    /\ nth_error (magnitude_dB aud) p = Some (nth p (magnitude_dB aud) 0)
    /\ nth_error (phase_deg aud) p = Some (nth p (phase_deg aud) 0)
    /\ nth_error (frequencies ext) pe = Some (nth pe (frequencies ext) 0)
    /\ nth_error (magnitude_dB ext) pe = Some (nth pe (magnitude_dB ext) 0)
    /\ nth_error (phase_deg ext) pe = Some (nth pe (phase_deg ext) 0)
    /\ nth_error (phase_deg ext) q = Some (nth q (phase_deg ext) 0).
Proof.
  intros aud ext.
  destruct (calculator_lengths L_cart R_cart R_load C_total (20, 20000) 2000)
    as (Laf & Lam & Lap).
  destruct (calculator_lengths L_cart R_cart R_load C_total (20, 50000) 3000)
    as (Lef & Lem & Lep).
  fold aud in Laf, Lam, Lap. fold ext in Lef, Lem, Lep.
  destruct (argmax_is_peak (magnitude_dB aud)) as (p & Hp & Hpk).
  { apply (nonempty_of_length _ 1999). exact Lam. }
  destruct (argmax_is_peak (magnitude_dB ext)) as (pe & Hpe & Hpke).
  { apply (nonempty_of_length _ 2999). exact Lem. }
  destruct (argmin_in_range
              (map (fun f => Rabs (f - f_res_ideal aud)) (frequencies ext)))
    as (q & Hq & Hqlt).
  { apply (nonempty_of_length _ 2999). rewrite length_map. exact Lef. }
  rewrite length_map in Hqlt.
  pose proof (proj1 Hpk) as Hplt. pose proof (proj1 Hpke) as Hpelt.
  exists p, pe, q.
  repeat match goal with |- _ /\ _ => split end; try assumption;
    apply nth_error_lt; congruence.
Qed.

Ltac use_sweep_fact :=
  match goal with
  | H : Np.argmax _ = Some _ |- _ => rewrite H
  | H : Np.argmin _ = Some _ |- _ => rewrite H
  | H : nth_error _ _ = Some _ |- _ => rewrite H
  end.

(** The if / elif / else chain prints the two lines of the tier that the
    specification assigns to the peak magnitude. *)
Lemma interpretation_run (peak_mag peak_freq : R) (log : list event) :
  interpretation peak_mag peak_freq log
  = ((log ++ tier_lines (tier_spec peak_mag) peak_mag peak_freq)%list,
     inr tt).
Proof.
  unfold interpretation, tier_spec.
  destruct (Rgt_dec peak_mag 3); [|destruct (Rgt_dec peak_mag 1)];
    cbv beta iota zeta delta [bind emit print tier_lines];
    rewrite <- app_assoc; reflexivity.
Qed.

(** A run of the renderer from an empty log ends normally and leaves exactly
    [report_trace], at the peaks that argmax finds. *)
Lemma renderer_trace (L_cart R_cart R_load C_total : R)
  (use_log_scale : bool) (output_file output_dir : string)
  (show_phase : bool) :
  let aud := cartridge_frequency_response L_cart R_cart R_load C_total
               (20, 20000) 2000 in
  let ext := cartridge_frequency_response L_cart R_cart R_load C_total
               (20, 50000) 3000 in
  exists p pe q,
    Np.argmax (magnitude_dB aud) = Some p
    /\ is_peak (magnitude_dB aud) p
    /\ Np.argmax (magnitude_dB ext) = Some pe
    /\ is_peak (magnitude_dB ext) pe
    /\ plot_cartridge_response L_cart R_cart R_load C_total use_log_scale
         output_file output_dir show_phase []
       = (report_trace L_cart R_cart R_load C_total output_file output_dir
            show_phase aud ext p pe q, inr tt).
Proof.
  intros aud ext.
  destruct (sweeps_ready L_cart R_cart R_load C_total)
    as (p & pe & q & Hp & Hpk & Hpe & Hpke & Hq & F).
  fold aud ext in Hp, Hpk, Hpe, Hpke, Hq, F.
  destruct F as (F1 & F2 & F3 & F4 & F5 & F6 & F7).
  exists p, pe, q.
  repeat match goal with |- _ /\ _ => split; [assumption|] end.
  unfold plot_cartridge_response, call_calculator.
  fold aud ext.
  clear Hpk Hpke. clearbody aud ext.
  unfold report_trace.
  destruct show_phase;
    repeat (run_render; use_sweep_fact);
    run_render;
    rewrite interpretation_run; reflexivity.
Qed.

(** * The claims about the report *)

Lemma tier_lines_inj (t1 t2 : tier) (m1 f1 m2 f2 : R) :
  tier_lines t1 m1 f1 = tier_lines t2 m2 f2 -> t1 = t2.
Proof.
  destruct t1, t2; simpl; intros E; try reflexivity; discriminate E.
Qed.

(** C5. The interpretation printed by the report is decided by the peak
    magnitude alone, by strict comparisons read top-down: above 3.0 the
    significant-treble-boost warning, otherwise above 1.0 the
    moderate-treble-lift notice, otherwise the well-damped confirmation, so
    that exactly 3.0 and exactly 1.0 fall through to the next tier; the
    magnitude the renderer passes is the peak of the audible sweep. *)
Theorem C5_interpretation_tier :
  (forall peak_mag peak_freq log,
      interpretation peak_mag peak_freq log
      = ((log ++ tier_lines (tier_spec peak_mag) peak_mag peak_freq)%list,
         inr tt))
  /\ (forall t1 t2 m1 f1 m2 f2,
         tier_lines t1 m1 f1 = tier_lines t2 m2 f2 -> t1 = t2)
  /\ (forall x, tier_spec x = SignificantBoost <-> x > 3)
  /\ (forall x, tier_spec x = ModerateLift <-> ~ x > 3 /\ x > 1)
  /\ (forall x, tier_spec x = WellDamped <-> ~ x > 3 /\ ~ x > 1)
  /\ tier_spec 3 = ModerateLift
  /\ tier_spec 1 = WellDamped
  /\ (forall L_cart R_cart R_load C_total use_log_scale output_file
             output_dir show_phase,
         let aud := cartridge_frequency_response L_cart R_cart R_load C_total
                      (20, 20000) 2000 in
         exists p,
           Np.argmax (magnitude_dB aud) = Some p
           /\ after_line (nl ++ "Interpretation:")
                (fst (plot_cartridge_response L_cart R_cart R_load C_total
                        use_log_scale output_file output_dir show_phase []))
              = (tier_lines (tier_spec (nth p (magnitude_dB aud) 0))
                            (nth p (magnitude_dB aud) 0)
                            (nth p (frequencies aud) 0)
                 ++ [EvPrint [Txt (str_mul "=" 60)]])%list).
Proof.
  split; [exact interpretation_run|].
  split; [exact tier_lines_inj|].
  split; [|split; [|split; [|split; [|split]]]].
  - intros x. unfold tier_spec.
    destruct (Rgt_dec x 3); [|destruct (Rgt_dec x 1)];
      split; intros H; try reflexivity; try discriminate; try lra.
  - intros x. unfold tier_spec.
    destruct (Rgt_dec x 3); [|destruct (Rgt_dec x 1)];
      split; intros H; try reflexivity; try discriminate; try lra;
      split; assumption.
  - intros x. unfold tier_spec.
    destruct (Rgt_dec x 3); [|destruct (Rgt_dec x 1)];
      split; intros H; try reflexivity; try discriminate; try lra;
      split; assumption.
  - unfold tier_spec.
    destruct (Rgt_dec 3 3); [lra|]. destruct (Rgt_dec 3 1); [reflexivity|lra].
  - unfold tier_spec.
    destruct (Rgt_dec 1 3); [lra|]. destruct (Rgt_dec 1 1); [lra|reflexivity].
  - intros L_cart R_cart R_load C_total use_log_scale output_file output_dir
           show_phase aud.
    destruct (renderer_trace L_cart R_cart R_load C_total use_log_scale
                output_file output_dir show_phase)
      as (p & pe & q & Hp & _ & _ & _ & Hrun).
    fold aud in Hp, Hrun.
    exists p. split; [exact Hp|].
    rewrite Hrun. cbn [fst]. clear Hp Hrun. clearbody aud.
    unfold report_trace.
    destruct show_phase; reflexivity.
Qed.

(** C6. For every circuit the renderer calls the calculator exactly twice
    with the same four parameters, first over 20 Hz to 20000 Hz with 2000
    samples and then over 20 Hz to 50000 Hz with 3000 samples; the run ends
    normally; the peak frequency and the peak magnitude of the console report
    are the elements of the audible-range arrays at the position that argmax
    finds in the audible-range magnitudes, a position of their global
    maximum. *)
Theorem C6_two_sweeps_audible_peak
  (L_cart R_cart R_load C_total : R) (use_log_scale : bool)
  (output_file output_dir : string) (show_phase : bool) :
  let aud := cartridge_frequency_response L_cart R_cart R_load C_total
               (20, 20000) 2000 in
  let run := plot_cartridge_response L_cart R_cart R_load C_total
               use_log_scale output_file output_dir show_phase [] in
  exists p,
    Np.argmax (magnitude_dB aud) = Some p
    /\ is_peak (magnitude_dB aud) p
    /\ snd run = inr tt
    /\ calc_calls (fst run)
       = [EvCalc L_cart R_cart R_load C_total (20, 20000) 2000;
          EvCalc L_cart R_cart R_load C_total (20, 50000) 3000]
    /\ lines_with "  Actual Peak Freq:    " (printed (fst run))
       = [[Txt "  Actual Peak Freq:    ";
           Num (nth p (frequencies aud) 0) ".1f"; Txt " Hz"]]
    /\ lines_with "  Peak Magnitude:      " (printed (fst run))
       = [[Txt "  Peak Magnitude:      ";
           Num (nth p (magnitude_dB aud) 0) ".2f"; Txt " dB"]].
Proof.
  intros aud run.
  destruct (renderer_trace L_cart R_cart R_load C_total use_log_scale
              output_file output_dir show_phase)
    as (p & pe & q & Hp & Hpk & _ & _ & Hrun).
  fold aud in Hp, Hpk, Hrun. fold run in Hrun.
  exists p.
  split; [exact Hp|]. split; [exact Hpk|].
  rewrite Hrun. cbn [fst snd]. clear Hp Hpk Hrun run. clearbody aud.
  unfold report_trace.
  split; [reflexivity|].
  destruct show_phase;
    destruct (tier_spec (nth p (magnitude_dB aud) 0));
    repeat split; reflexivity.
Qed.

(** C9. The damping line of the report is decided by the quality factor
    alone with a strict threshold at 1: it reads "Under-damped (resonant peak
    visible)" exactly when Q > 1 and "Critically/Over-damped (minimal peak)"
    otherwise, also at Q = 1; the Q it is given is the calculator's. *)
Theorem C9_damping_line :
  (forall Q, damping_label Q = "Under-damped (resonant peak visible)"
             <-> Q > 1)
  /\ (forall Q, damping_label Q = "Critically/Over-damped (minimal peak)"
                <-> ~ Q > 1)
  /\ damping_label 1 = "Critically/Over-damped (minimal peak)"
  /\ (forall L_cart R_cart R_load C_total use_log_scale output_file
             output_dir show_phase,
         let aud := cartridge_frequency_response L_cart R_cart R_load C_total
                      (20, 20000) 2000 in
         lines_with "  Damping:             "
           (printed
              (fst (plot_cartridge_response L_cart R_cart R_load C_total
                      use_log_scale output_file output_dir show_phase [])))
         = [[Txt "  Damping:             "; Txt (damping_label (Q aud))]]).
Proof.
  split; [|split; [|split]].
  - intros Q. unfold damping_label.
    destruct (Rgt_dec Q 1); split; intros H;
      try reflexivity; try assumption; try discriminate; contradiction.
  - intros Q. unfold damping_label.
    destruct (Rgt_dec Q 1); split; intros H;
      try reflexivity; try assumption; try discriminate; contradiction.
  - unfold damping_label. destruct (Rgt_dec 1 1); [lra|reflexivity].
  - intros L_cart R_cart R_load C_total use_log_scale output_file output_dir
           show_phase aud.
    destruct (renderer_trace L_cart R_cart R_load C_total use_log_scale
                output_file output_dir show_phase)
      as (p & pe & q & _ & _ & _ & _ & Hrun).
    fold aud in Hrun.
    rewrite Hrun. cbn [fst]. clear Hrun. clearbody aud.
    unfold report_trace.
    destruct show_phase;
      destruct (tier_spec (nth p (magnitude_dB aud) 0)); reflexivity.
Qed.

(** ** The shape of the magnitude response *)

Section Rolloff.

Variables R_cart R_load L C : R.
Hypothesis R_cart_nonneg : 0 <= R_cart.
Hypothesis R_load_pos : 0 < R_load.
Hypothesis L_pos : 0 < L.
Hypothesis C_pos : 0 < C.

Lemma divider_norm2 (w : R) :
  0 < w ->
  Cnorm2 (Cadd (Z_cart_at R_cart L w) (Z_load_at R_load C w))
  = Cnorm2 (Z_load_at R_load C w)
    * gain_denominator R_cart R_load L C (w * w).
Proof.
  intros Hw.
  rewrite Z_load_at_spec, Z_load_spec_closed, Z_cart_at_spec by assumption.
  assert (Hd : 0 < 1 + (w * R_load * C) * (w * R_load * C)) by nra.
  unfold Cnorm2, Cadd, Z_cart_spec, gain_denominator. cbn [Re Im].
  field. split; lra.
Qed.

Lemma gain_denominator_ok (w : R) :
  0 < w ->
  0 < gain_denominator R_cart R_load L C (w * w)
  /\ Cnorm2 (H_at R_cart R_load L C w)
     = / gain_denominator R_cart R_load L C (w * w).
Proof.
  intros Hw.
  pose proof (divider_norm2 w Hw) as E.
  assert (Hl : 0 < Cnorm2 (Z_load_at R_load C w)).
  { apply Cnorm2_pos, C_neq_0_Re.
    pose proof (Z_load_Re_pos R_load C w R_load_pos C_pos Hw). lra. }
  assert (Hs : 0 < Cnorm2 (Cadd (Z_cart_at R_cart L w)
                                (Z_load_at R_load C w))).
  { apply Cnorm2_pos.
    apply divider_nonzero; assumption. }
  assert (Hg : 0 < gain_denominator R_cart R_load L C (w * w)).
  { rewrite E in Hs.
    destruct (Rlt_dec 0 (gain_denominator R_cart R_load L C (w * w)))
      as [Hp|Hn]; [exact Hp|]. exfalso. nra. }
  split; [exact Hg|].
  unfold H_at.
  rewrite Cnorm2_div by (apply divider_nonzero; assumption).
  rewrite E. field. split; lra.
Qed.

End Rolloff.

Lemma dB_decreasing (d1 d2 : R) :
  0 < d1 -> d1 < d2 -> dB_of_denominator d2 < dB_of_denominator d1.
Proof.
  intros H1 H12. unfold dB_of_denominator, Np.log10.
  pose proof ln10_pos as H10.
  assert (Hinv : / d2 < / d1) by (apply Rinv_0_lt_contravar; assumption).
  assert (Hi2 : 0 < / d2) by (apply Rinv_0_lt_compat; lra).
  assert (Hsq : sqrt (/ d2) < sqrt (/ d1)) by (apply sqrt_lt_1; lra).
  assert (Hs2 : 0 < sqrt (/ d2)) by (apply sqrt_lt_R0; exact Hi2).
  assert (Hln : ln (sqrt (/ d2)) < ln (sqrt (/ d1)))
    by (apply ln_increasing; assumption).
  assert (Hq : ln (sqrt (/ d2)) / ln 10 < ln (sqrt (/ d1)) / ln 10).
  { unfold Rdiv. apply Rmult_lt_compat_r; [|exact Hln].
    apply Rinv_0_lt_compat. exact H10. }
  lra.
Qed.

Lemma argmax_peak (a : list R) (p : nat) :
  Np.argmax a = Some p -> is_peak a p.
Proof.
  intros Hp.
  assert (Ha : a <> []) by (intros E; rewrite E in Hp; discriminate).
  destruct (argmax_is_peak a Ha) as (p' & Hp' & Hpk).
  congruence.
Qed.

Section RolloffSamples.

Variables L_mH R_c R_l_k C_pF low_Hz high_Hz : R.
Variable n : nat.
Hypothesis L_pos : 0 < L_mH.
Hypothesis C_pos : 0 < C_pF.
Hypothesis R_load_pos : 0 < R_l_k.
Hypothesis R_cart_nonneg : 0 <= R_c.

Let r := cartridge_frequency_response L_mH R_c R_l_k C_pF
           (low_Hz, high_Hz) n.
Let u := fun k => (2 * PI * nth k (frequencies r) 0)
                  * (2 * PI * nth k (frequencies r) 0).
Let d := fun k =>
  gain_denominator R_c (ohms R_l_k) (henries L_mH) (farads C_pF) (u k).

Lemma sample_dB (k : nat) :
  (k < n)%nat ->
  0 < d k /\ nth k (magnitude_dB r) 0 = dB_of_denominator (d k).
Proof.
  intros Hk.
  pose proof (omega_pos L_mH R_c R_l_k C_pF (low_Hz, high_Hz) n k Hk) as Hw.
  fold r in Hw.
  assert (HR : 0 < ohms R_l_k) by (unfold ohms; lra).
  assert (HL : 0 < henries L_mH) by (unfold henries; lra).
  assert (HC : 0 < farads C_pF) by (unfold farads; lra).
  destruct (gain_denominator_ok R_c (ohms R_l_k) (henries L_mH) (farads C_pF)
              R_cart_nonneg HR HC _ Hw) as (Hpos & Hnorm).
  split; [exact Hpos|].
  unfold r. rewrite magnitude_nth by exact Hk. fold r.
  unfold dB_of_denominator, Cabs. rewrite Hnorm. reflexivity.
Qed.

End RolloffSamples.

(** * The claim about the entry point *)

Lemma in_list_In (x : string) (l : list string) :
  in_list x l = true <-> In x l.
Proof.
  unfold in_list. rewrite existsb_exists. split.
  - intros (y & Hy & E). apply String.eqb_eq in E. subst. exact Hy.
  - intros H. exists x. split; [exact H | apply String.eqb_refl].
Qed.

(** C10. In interactive mode the logarithmic axis is chosen exactly when the
    stripped, lower-cased scale answer is one of the empty string, log,
    logarithmic; the phase traces are chosen exactly when the stripped,
    lower-cased phase answer is one of the empty string, yes, y, true, 1.
    Hence true and 1, which choose the logarithmic axis on the command line,
    choose the linear axis at the prompt, and y, which hides the phase on
    the command line, shows it at the prompt. *)
Theorem C10_interactive_flags :
  (forall typed,
      interactive_use_log typed = true
      <-> In (lower (strip typed)) [""; "log"; "logarithmic"])
  /\ (forall typed,
         interactive_show_phase typed = true
         <-> In (lower (strip typed)) [""; "yes"; "y"; "true"; "1"])
  /\ (forall prog a b c d rest,
         cli_use_log (prog :: a :: b :: c :: d :: "true" :: rest) = true
         /\ cli_use_log (prog :: a :: b :: c :: d :: "1" :: rest) = true)
  /\ interactive_use_log "true" = false
  /\ interactive_use_log "1" = false
  /\ (forall prog a b c d scale rest,
         cli_show_phase (prog :: a :: b :: c :: d :: scale :: "y" :: rest)
         = false)
  /\ interactive_show_phase "y" = true.
Proof.
  split; [|split; [|split; [|split; [|split; [|split]]]]].
  - intros typed. apply in_list_In.
  - intros typed. apply in_list_In.
  - intros prog a b c d rest. split; reflexivity.
  - reflexivity.
  - reflexivity.
  - intros prog a b c d scale rest. reflexivity.
  - reflexivity.
Qed.

(** * Further properties of the calculator *)

Lemma ln_sqrt_inv (d : R) : 0 < d -> ln (sqrt (/ d)) = - ln d / 2.
Proof.
  intros Hd.
  assert (Hi : 0 < / d) by (apply Rinv_0_lt_compat; exact Hd).
  rewrite <- (Rpower_sqrt (/ d) Hi).
  rewrite ln_Rpower, ln_Rinv by exact Hd. field.
Qed.

Lemma dB_of_denominator_log (d : R) :
  0 < d -> dB_of_denominator d = -10 * Np.log10 d.
Proof.
  intros Hd. unfold dB_of_denominator, Np.log10.
  rewrite ln_sqrt_inv by exact Hd.
  pose proof ln10_pos. field. lra.
Qed.

Lemma dB_of_one : dB_of_denominator 1 = 0.
Proof.
  rewrite dB_of_denominator_log by lra.
  unfold Np.log10. rewrite ln_1. unfold Rdiv. ring.
Qed.

(** The transfer function in Cartesian form: the real part carries the sign
    of [1 + R_cart / R_load - w^2 L C], the imaginary part is negative. *)
Lemma H_at_parts (R_cart R_load L C w : R) :
  0 <= R_cart -> 0 < R_load -> 0 < L -> 0 < C -> 0 < w ->
  let D := gain_denominator R_cart R_load L C (w * w) in
  Re (H_at R_cart R_load L C w)
  = (1 + R_cart / R_load - w * w * L * C) / D
  /\ Im (H_at R_cart R_load L C w)
     = - (w * (L / R_load + R_cart * C)) / D.
Proof.
  intros HRc HR HL HC Hw D.
  destruct (gain_denominator_ok R_cart R_load L C HRc HR HC w Hw)
    as (HD & _).
  fold D in HD.
  pose proof (divider_norm2 R_cart R_load L C HR HC w Hw) as E.
  fold D in E.
  assert (Hl : 0 < Cnorm2 (Z_load_at R_load C w)).
  { apply Cnorm2_pos, C_neq_0_Re.
    pose proof (Z_load_Re_pos R_load C w HR HC Hw). lra. }
  unfold H_at, Cdiv. cbn [Re Im]. rewrite E.
  set (N := Cnorm2 (Z_load_at R_load C w)) in *.
  assert (Hd : 0 < 1 + (w * R_load * C) * (w * R_load * C)) by nra.
  assert (Hre :
    Re (Z_load_at R_load C w)
      * Re (Cadd (Z_cart_at R_cart L w) (Z_load_at R_load C w))
    + Im (Z_load_at R_load C w)
      * Im (Cadd (Z_cart_at R_cart L w) (Z_load_at R_load C w))
    = N * (1 + R_cart / R_load - w * w * L * C)).
  { unfold N.
    rewrite Z_load_at_spec, Z_load_spec_closed, Z_cart_at_spec by assumption.
    unfold Cnorm2, Cadd, Z_cart_spec. cbn [Re Im]. field. split; lra. }
  assert (Him :
    Im (Z_load_at R_load C w)
      * Re (Cadd (Z_cart_at R_cart L w) (Z_load_at R_load C w))
    - Re (Z_load_at R_load C w)
      * Im (Cadd (Z_cart_at R_cart L w) (Z_load_at R_load C w))
    = N * - (w * (L / R_load + R_cart * C))).
  { unfold N.
    rewrite Z_load_at_spec, Z_load_spec_closed, Z_cart_at_spec by assumption.
    unfold Cnorm2, Cadd, Z_cart_spec. cbn [Re Im]. field. split; lra. }
  rewrite Hre, Him. split; field; split; lra.
Qed.

(** X1. At every sample of a valid circuit the magnitude in decibels is
    -10 log10 of the quadratic
    (1 + R_cart/R_load - w^2 L C)^2 + w^2 (L/R_load + R_cart C)^2,
    which is positive. *)
Theorem gain_closed_form
  (L_cart_mH R_cart_ohms R_load_kohms C_total_pF low_Hz high_Hz : R)
  (num_points i : nat) :
  0 < L_cart_mH -> 0 < C_total_pF -> 0 < R_load_kohms -> 0 <= R_cart_ohms ->
  (i < num_points)%nat ->
  let r := cartridge_frequency_response
             L_cart_mH R_cart_ohms R_load_kohms C_total_pF
             (low_Hz, high_Hz) num_points in
  let L := L_cart_mH * (1 / 1000) in
  let R_load := R_load_kohms * 1000 in
  let C := C_total_pF * (1 / 1000000000000) in
  let w := 2 * PI * nth i (frequencies r) 0 in
  let D := (1 + R_cart_ohms / R_load - w * w * L * C)
           * (1 + R_cart_ohms / R_load - w * w * L * C)
           + w * w * (L / R_load + R_cart_ohms * C)
             * (L / R_load + R_cart_ohms * C) in
  0 < D
  /\ nth i (magnitude_dB r) 0 = -10 * Np.log10 D
  /\ D = gain_denominator R_cart_ohms R_load L C (w * w).
Proof.
  intros HL HC HR HRc Hi r L R_load C w D.
  destruct (sample_dB L_cart_mH R_cart_ohms R_load_kohms C_total_pF
              low_Hz high_Hz num_points HL HC HR HRc i Hi) as (Hpos & Hm).
  fold r in Hpos, Hm. fold w in Hpos, Hm.
  unfold ohms, henries, farads in Hpos, Hm. fold L R_load C in Hpos, Hm.
  assert (ED : D = gain_denominator R_cart_ohms R_load L C (w * w))
    by reflexivity.
  rewrite ED. repeat split.
  - exact Hpos.
  - rewrite Hm. apply dB_of_denominator_log. exact Hpos.
Qed.

(** The tenth sample of the audible sweep of the default circuit. *)
Lemma gain_closed_form_witness :
  let r := cartridge_frequency_response 500 600 47 200 (20, 20000) 2000 in
  let w := 2 * PI * nth 9 (frequencies r) 0 in
  0 < gain_denominator 600 (47 * 1000) (500 * (1 / 1000))
        (200 * (1 / 1000000000000)) (w * w).
Proof.
  intros r w.
  assert (V : 0 < 500 /\ 0 < 200 /\ 0 < 47 /\ 0 <= 600) by lra.
  destruct V as (V1 & V2 & V3 & V4).
  assert (Hi : (9 < 2000)%nat) by (apply Nat.ltb_lt; reflexivity).
  destruct (gain_closed_form 500 600 47 200 20 20000 2000 9 V1 V2 V3 V4 Hi)
    as (Hpos & _ & HD).
  fold r in Hpos, HD. fold w in Hpos, HD.
  rewrite <- HD. exact Hpos.
Defined.

(** ** The phase of the response *)

Lemma arctan2_lower_half (y x : R) :
  y < 0 ->
  - PI < Np.arctan2 y x < 0
  /\ (- (PI / 2) < Np.arctan2 y x <-> 0 < x).
Proof.
  intros Hy.
  pose proof PI_RGT_0 as Hpi.
  pose proof (atan_bound (y / x)) as [Hlo Hhi].
  unfold Np.arctan2.
  destruct (Rlt_dec 0 x) as [Hx|Hx].
  - assert (Hq : y / x < 0).
    { unfold Rdiv. pose proof (Rinv_0_lt_compat x Hx). nra. }
    assert (Ha : atan (y / x) < 0)
      by (rewrite <- atan_0; apply atan_increasing; exact Hq).
    split; [lra|]. split; intros; lra.
  - destruct (Rlt_dec x 0) as [Hx'|Hx'].
    + destruct (Rle_dec 0 y) as [Hy'|_]; [lra|].
      pose proof (atan_pos _ (quotient_neg_neg y x Hx' Hy)) as Ha.
      split; [lra|]. split; intros; lra.
    + destruct (Rlt_dec 0 y) as [Hy'|_]; [lra|].
      destruct (Rlt_dec y 0) as [_|Hy'']; [|lra].
      split; [lra|]. split; intros; lra.
Qed.

Lemma degrees_scale (a b : R) : a < b -> a * 180 / PI < b * 180 / PI.
Proof.
  intros Hab. pose proof PI_RGT_0 as Hpi.
  unfold Rdiv. apply Rmult_lt_compat_r.
  - apply Rinv_0_lt_compat. exact Hpi.
  - lra.
Qed.

Lemma degrees_of_pi : - PI * 180 / PI = -180.
Proof.
  pose proof PI_RGT_0. field. lra.
Qed.

Lemma degrees_of_half_pi : - (PI / 2) * 180 / PI = -90.
Proof.
  pose proof PI_RGT_0. field. lra.
Qed.

Lemma degrees_of_zero : 0 * 180 / PI = 0.
Proof.
  unfold Rdiv. ring.
Qed.

(** X2. On a valid circuit the output lags the input at every swept
    frequency: each phase sample lies strictly between -180 and 0 degrees;
    it is above -90 degrees exactly when w^2 L C < 1 + R_cart / R_load. *)
Theorem phase_lags
  (L_cart_mH R_cart_ohms R_load_kohms C_total_pF low_Hz high_Hz : R)
  (num_points i : nat) :
  0 < L_cart_mH -> 0 < C_total_pF -> 0 < R_load_kohms -> 0 <= R_cart_ohms ->
  (i < num_points)%nat ->
  let r := cartridge_frequency_response
             L_cart_mH R_cart_ohms R_load_kohms C_total_pF
             (low_Hz, high_Hz) num_points in
  let L := L_cart_mH * (1 / 1000) in
  let R_load := R_load_kohms * 1000 in
  let C := C_total_pF * (1 / 1000000000000) in
  let w := 2 * PI * nth i (frequencies r) 0 in
  -180 < nth i (phase_deg r) 0 < 0
  /\ (-90 < nth i (phase_deg r) 0
      <-> w * w * L * C < 1 + R_cart_ohms / R_load).
Proof.
  intros HL HC HR HRc Hi r L R_load C w.
  assert (HRl : 0 < R_load) by (unfold R_load; lra).
  assert (HLh : 0 < L) by (unfold L; lra).
  assert (HCf : 0 < C) by (unfold C; lra).
  pose proof (omega_pos L_cart_mH R_cart_ohms R_load_kohms C_total_pF
                (low_Hz, high_Hz) num_points i Hi) as Hw.
  fold r in Hw. fold w in Hw.
  pose proof (phase_nth L_cart_mH R_cart_ohms R_load_kohms C_total_pF
                (low_Hz, high_Hz) num_points i Hi) as Ep.
  fold r in Ep. fold w in Ep.
  unfold ohms, henries, farads in Ep. fold R_load L C in Ep.
  destruct (H_at_parts R_cart_ohms R_load L C w HRc HRl HLh HCf Hw)
    as (ERe & EIm).
  destruct (gain_denominator_ok R_cart_ohms R_load L C HRc HRl HCf w Hw)
    as (HD & _).
  set (D := gain_denominator R_cart_ohms R_load L C (w * w)) in *.
  assert (Hinv : 0 < / D) by (apply Rinv_0_lt_compat; exact HD).
  assert (Hb : 0 < w * (L / R_load + R_cart_ohms * C)).
  { assert (0 < L / R_load) by (apply Rdiv_lt_0_compat; assumption).
    assert (0 <= R_cart_ohms * C) by nra. nra. }
  assert (HIm : Im (H_at R_cart_ohms R_load L C w) < 0).
  { rewrite EIm. unfold Rdiv. nra. }
  destruct (arctan2_lower_half _ (Re (H_at R_cart_ohms R_load L C w)) HIm)
    as ((Alo & Ahi) & Ahalf).
  unfold Np.angle in Ep.
  set (a := Np.arctan2 (Im (H_at R_cart_ohms R_load L C w))
                       (Re (H_at R_cart_ohms R_load L C w))) in *.
  rewrite Ep.
  split; [split|split].
  - rewrite <- degrees_of_pi. apply degrees_scale. exact Alo.
  - rewrite <- degrees_of_zero. apply degrees_scale. exact Ahi.
  - intros H90.
    assert (Ha : - (PI / 2) < a).
    { destruct (Rlt_dec (- (PI / 2)) a) as [Hlt|Hge]; [exact Hlt|].
      exfalso. destruct (Req_dec a (- (PI / 2))) as [E|N].
      - rewrite E, degrees_of_half_pi in H90. lra.
      - assert (Hlt : a < - (PI / 2)) by lra.
        pose proof (degrees_scale _ _ Hlt) as Hs.
        rewrite degrees_of_half_pi in Hs. lra. }
    apply Ahalf in Ha. rewrite ERe in Ha.
    assert (Hn : 0 < (1 + R_cart_ohms / R_load - w * w * L * C) / D * D)
      by nra.
    unfold Rdiv in Hn. rewrite Rmult_assoc, Rinv_l in Hn by lra. lra.
  - intros Hlt.
    assert (HRe : 0 < Re (H_at R_cart_ohms R_load L C w)).
    { rewrite ERe. unfold Rdiv. nra. }
    apply Ahalf in HRe.
    rewrite <- degrees_of_half_pi. apply degrees_scale. exact HRe.
Qed.

(** The last sample of the audible sweep of the default circuit. *)
Lemma phase_lags_witness :
  -180 < nth 1999 (phase_deg (cartridge_frequency_response
                                500 600 47 200 (20, 20000) 2000)) 0 < 0.
Proof.
  assert (V : 0 < 500 /\ 0 < 200 /\ 0 < 47 /\ 0 <= 600) by lra.
  destruct V as (V1 & V2 & V3 & V4).
  exact (proj1 (phase_lags 500 600 47 200 20 20000 2000 1999
                  V1 V2 V3 V4 (Nat.lt_succ_diag_r 1999))).
Defined.

(** ** Circuits without a resonant peak *)

Lemma argmax_from_keeps (l : list R) :
  forall (i bi : nat) (bv : R),
  (forall k, (k < List.length l)%nat -> nth k l 0 <= bv) ->
  Np.argmax_from l i bi bv = bi.
Proof.
  induction l as [|x tl IH]; intros i bi bv Hall; simpl.
  - reflexivity.
  - destruct (Rlt_dec bv x) as [Hlt|_].
    + pose proof (Hall 0%nat ltac:(simpl; lia)) as H0. simpl in H0. lra.
    + apply IH. intros k Hk.
      apply (Hall (S k)). simpl. lia.
Qed.

(** When no later element exceeds the first, argmax is position 0. *)
Lemma argmax_first (a : list R) :
  a <> [] ->
  (forall k, (k < List.length a)%nat -> nth k a 0 <= nth 0 a 0) ->
  Np.argmax a = Some 0%nat.
Proof.
  destruct a as [|x tl]; [congruence|]. intros _ Hall.
  unfold Np.argmax. f_equal. apply argmax_from_keeps.
  intros k Hk. apply (Hall (S k)). simpl. lia.
Qed.

Section NoPeak.

Variables R_cart R_load L C : R.
Hypothesis R_cart_nonneg : 0 <= R_cart.
Hypothesis R_load_pos : 0 < R_load.
Hypothesis L_pos : 0 < L.
Hypothesis C_pos : 0 < C.
Hypothesis heavy_damping :
  2 * (1 + R_cart / R_load) * (L * C)
  <= (L / R_load + R_cart * C) * (L / R_load + R_cart * C).

Lemma gain_denominator_increasing (u1 u2 : R) :
  0 <= u1 -> u1 < u2 ->
  gain_denominator R_cart R_load L C u1
  < gain_denominator R_cart R_load L C u2.
Proof.
  intros H1 H12. unfold gain_denominator.
  set (a := 1 + R_cart / R_load) in *.
  set (b := L / R_load + R_cart * C) in *.
  assert (Hk : 0 < L * C) by nra.
  replace (u1 * L * C) with (u1 * (L * C)) by ring.
  replace (u2 * L * C) with (u2 * (L * C)) by ring.
  set (k := L * C) in *.
  assert (E : ((a - u2 * k) * (a - u2 * k) + u2 * b * b)
              - ((a - u1 * k) * (a - u1 * k) + u1 * b * b)
              = (u2 - u1) * (k * k * (u2 + u1) + (b * b - 2 * a * k)))
    by ring.
  assert (0 < (u2 - u1) * (k * k * (u2 + u1) + (b * b - 2 * a * k)));
    [|lra].
  apply Rmult_lt_0_compat; [lra|].
  assert (0 < k * k * (u2 + u1)) by (apply Rmult_lt_0_compat; nra).
  lra.
Qed.

Lemma gain_denominator_above_one (u : R) :
  0 < u -> 1 < gain_denominator R_cart R_load L C u.
Proof.
  intros Hu.
  pose proof (gain_denominator_increasing 0 u (Rle_refl 0) Hu) as H.
  assert (H0 : 1 <= gain_denominator R_cart R_load L C 0).
  { unfold gain_denominator.
    assert (0 <= R_cart / R_load)
      by (apply Rmult_le_pos; [lra | left; apply Rinv_0_lt_compat; lra]).
    nra. }
  lra.
Qed.

End NoPeak.

Lemma no_peak_samples
  (L_cart_mH R_cart_ohms R_load_kohms C_total_pF low_Hz high_Hz : R)
  (num_points : nat) :
  0 < L_cart_mH -> 0 < C_total_pF -> 0 < R_load_kohms -> 0 <= R_cart_ohms ->
  0 < low_Hz -> low_Hz < high_Hz -> (1 <= num_points)%nat ->
  let r := cartridge_frequency_response
             L_cart_mH R_cart_ohms R_load_kohms C_total_pF
             (low_Hz, high_Hz) num_points in
  let L := L_cart_mH * (1 / 1000) in
  let R_load := R_load_kohms * 1000 in
  let C := C_total_pF * (1 / 1000000000000) in
  2 * (1 + R_cart_ohms / R_load) * (L * C)
  <= (L / R_load + R_cart_ohms * C) * (L / R_load + R_cart_ohms * C) ->
  (forall i j, (i < j)%nat -> (j < num_points)%nat ->
               nth j (magnitude_dB r) 0 < nth i (magnitude_dB r) 0)
  /\ (forall i, (i < num_points)%nat -> nth i (magnitude_dB r) 0 < 0)
  /\ Np.argmax (magnitude_dB r) = Some 0%nat.
Proof.
  intros HL HC HR HRc Hlo Hlt Hn r L R_load C Hdamp.
  assert (HRl : 0 < R_load) by (unfold R_load; lra).
  assert (HLh : 0 < L) by (unfold L; lra).
  assert (HCf : 0 < C) by (unfold C; lra).
  pose proof (sample_dB L_cart_mH R_cart_ohms R_load_kohms C_total_pF
                low_Hz high_Hz num_points HL HC HR HRc) as S.
  fold r in S. unfold ohms, henries, farads in S. fold L R_load C in S.
  assert (Hw : forall k, (k < num_points)%nat ->
             0 < 2 * PI * nth k (frequencies r) 0).
  { intros k Hk.
    exact (omega_pos L_cart_mH R_cart_ohms R_load_kohms C_total_pF
             (low_Hz, high_Hz) num_points k Hk). }
  assert (Hstrict : forall i j, (i < j)%nat -> (j < num_points)%nat ->
             nth j (magnitude_dB r) 0 < nth i (magnitude_dB r) 0).
  { intros i j Hij Hj.
    destruct (S i ltac:(lia)) as (Di & Ei).
    destruct (S j Hj) as (Dj & Ej).
    rewrite Ei, Ej. apply dB_decreasing; [exact Di|].
    apply gain_denominator_increasing; try assumption.
    - pose proof (Hw i ltac:(lia)). nra.
    - assert (Hf : nth i (frequencies r) 0 < nth j (frequencies r) 0).
      { assert (Hn2 : (2 <= num_points)%nat) by lia.
        assert (Hhi : 0 < high_Hz) by lra.
        unfold r.
        rewrite (frequencies_nth _ _ _ _ low_Hz high_Hz num_points i)
          by (try assumption; lia).
        rewrite (frequencies_nth _ _ _ _ low_Hz high_Hz num_points j)
          by assumption.
        apply geometric_increasing; assumption. }
      pose proof (Hw i ltac:(lia)) as Wi. pose proof PI_RGT_0.
      assert (2 * PI * nth i (frequencies r) 0
              < 2 * PI * nth j (frequencies r) 0) by nra.
      nra. }
  split; [exact Hstrict|].
  assert (Hneg : forall i, (i < num_points)%nat ->
             nth i (magnitude_dB r) 0 < 0).
  { intros i Hi.
    destruct (S i Hi) as (Di & Ei). rewrite Ei.
    assert (H1 : 1 < gain_denominator R_cart_ohms R_load L C
                       ((2 * PI * nth i (frequencies r) 0)
                        * (2 * PI * nth i (frequencies r) 0))).
    { apply gain_denominator_above_one; try assumption.
      pose proof (Hw i Hi). nra. }
    pose proof (dB_decreasing 1 _ Rlt_0_1 H1) as Hd.
    rewrite dB_of_one in Hd. exact Hd. }
  split; [exact Hneg|].
  destruct (calculator_lengths L_cart_mH R_cart_ohms R_load_kohms C_total_pF
              (low_Hz, high_Hz) num_points) as (_ & Lm & _).
  fold r in Lm.
  apply argmax_first.
  - intros E. rewrite E in Lm. simpl in Lm. lia.
  - rewrite Lm. intros k Hk.
    destruct k as [|k]; [lra|].
    left. apply Hstrict; lia.
Qed.

(** ** The quality factor against the actual response *)

Lemma sqrt2_above_one : 1 < sqrt 2.
Proof.
  rewrite <- sqrt_1 at 1. apply sqrt_lt_1; lra.
Qed.

Lemma Q_at_least_sqrt2 (R_cart R_load L C : R) :
  0 <= R_cart -> 0 < R_load -> 0 < L -> 0 < C ->
  (sqrt 2 <= sqrt (L / C) / (R_cart + R_load)
   <-> 2 * C * ((R_cart + R_load) * (R_cart + R_load)) <= L).
Proof.
  intros HRc HR HL HC.
  set (T := R_cart + R_load). assert (HT : 0 < T) by (unfold T; lra).
  assert (Hq : 0 < L / C) by (apply Rdiv_lt_0_compat; assumption).
  pose proof (sqrt_sqrt 2 ltac:(lra)) as E2.
  pose proof (sqrt_sqrt (L / C) ltac:(lra)) as Ez.
  pose proof (sqrt_lt_R0 2 ltac:(lra)) as P2.
  pose proof (sqrt_lt_R0 (L / C) Hq) as Pz.
  set (s := sqrt 2) in *. set (z := sqrt (L / C)) in *.
  assert (EL : L / C * C = L) by (field; lra).
  assert (Ediv : z / T * T = z) by (field; lra).
  split.
  - intros Hle.
    assert (H1 : s * T <= z) by (rewrite <- Ediv; nra).
    assert (H0 : 0 <= s * T) by (apply Rmult_le_pos; lra).
    assert (H2 : (s * T) * (s * T) <= z * z)
      by (apply Rmult_le_compat; lra).
    assert (H3 : 2 * (T * T) <= L / C) by nra.
    rewrite <- EL. nra.
  - intros Hle.
    assert (H3 : 2 * (T * T) <= L / C).
    { apply (Rmult_le_reg_r C); [exact HC|]. rewrite EL. nra. }
    assert (H1 : s * T <= z).
    { destruct (Rle_dec (s * T) z) as [H|H]; [exact H|].
      exfalso. assert (z < s * T) by lra. nra. }
    apply (Rmult_le_reg_r T); [exact HT|]. rewrite Ediv. exact H1.
Qed.

Lemma high_Q_is_heavy_damping (R_cart R_load L C : R) :
  0 <= R_cart -> 0 < R_load -> 0 < L -> 0 < C ->
  2 * C * ((R_cart + R_load) * (R_cart + R_load)) <= L ->
  2 * (1 + R_cart / R_load) * (L * C)
  <= (L / R_load + R_cart * C) * (L / R_load + R_cart * C).
Proof.
  intros HRc HR HL HC Hq.
  set (x := L / R_load).
  assert (Hx : 0 < x) by (apply Rdiv_lt_0_compat; assumption).
  assert (EL : L = x * R_load) by (unfold x; field; lra).
  replace (2 * (1 + R_cart / R_load) * (L * C))
    with (2 * (R_load + R_cart) * x * C) by (unfold x; field; lra).
  assert (H1 : 2 * C * (R_cart + R_load) * R_load <= x * R_load).
  { rewrite <- EL.
    assert (0 <= C * (R_cart + R_load) * R_cart)
      by (apply Rmult_le_pos; [nra | lra]).
    nra. }
  assert (H2 : 2 * C * (R_cart + R_load) <= x)
    by (apply (Rmult_le_reg_r R_load); [exact HR | exact H1]).
  assert (H3 : 2 * C * (R_cart + R_load) * x <= x * x) by nra.
  assert (H4 : 0 <= R_cart * C) by nra.
  nra.
Qed.

(** * Further properties of the report *)

Lemma argmin_from_as_argmax (l : list R) :
  forall (i bi : nat) (bv : R),
  Np.argmin_from l i bi bv = Np.argmax_from (map Ropp l) i bi (- bv).
Proof.
  induction l as [|x tl IH]; intros i bi bv; simpl.
  - reflexivity.
  - destruct (Rlt_dec x bv) as [H|H];
      destruct (Rlt_dec (- bv) (- x)) as [H'|H']; try lra; apply IH.
Qed.

Lemma argmin_as_argmax (a : list R) :
  Np.argmin a = Np.argmax (map Ropp a).
Proof.
  destruct a as [|x tl]; [reflexivity|].
  unfold Np.argmin, Np.argmax. cbn [map].
  rewrite argmin_from_as_argmax. reflexivity.
Qed.

(** [np.argmin] returns a position of the smallest element. *)
Lemma argmin_is_least (a : list R) (q : nat) :
  Np.argmin a = Some q ->
  (q < List.length a)%nat
  /\ forall k, (k < List.length a)%nat -> nth q a 0 <= nth k a 0.
Proof.
  intros Hq. rewrite argmin_as_argmax in Hq.
  destruct (argmax_peak _ _ Hq) as (Hlt & Hmax).
  rewrite length_map in Hlt, Hmax.
  split; [exact Hlt|].
  intros k Hk. specialize (Hmax k Hk).
  rewrite (nth_map_lt Ropp a k 0 0 Hk) in Hmax.
  rewrite (nth_map_lt Ropp a q 0 0 Hlt) in Hmax.
  lra.
Qed.

Lemma argmin_nearest (a : list R) (target : R) (q : nat) :
  Np.argmin (map (fun f => Rabs (f - target)) a) = Some q ->
  is_nearest a target q.
Proof.
  intros Hq. destruct (argmin_is_least _ _ Hq) as (Hlt & Hmin).
  rewrite length_map in Hlt, Hmin.
  split; [exact Hlt|].
  intros k Hk. specialize (Hmin k Hk).
  rewrite (nth_map_lt (fun f => Rabs (f - target)) a k 0 0 Hk) in Hmin.
  rewrite (nth_map_lt (fun f => Rabs (f - target)) a q 0 0 Hlt) in Hmin.
  exact Hmin.
Qed.

(** The run of the renderer again, this time keeping what argmin found. *)
Lemma renderer_trace_nearest (L_cart R_cart R_load C_total : R)
  (use_log_scale : bool) (output_file output_dir : string)
  (show_phase : bool) :
  let aud := cartridge_frequency_response L_cart R_cart R_load C_total
               (20, 20000) 2000 in
  let ext := cartridge_frequency_response L_cart R_cart R_load C_total
               (20, 50000) 3000 in
  exists p pe q,
    Np.argmax (magnitude_dB aud) = Some p
    /\ Np.argmax (magnitude_dB ext) = Some pe
    /\ Np.argmin (map (fun f => Rabs (f - f_res_ideal aud))
                      (frequencies ext)) = Some q
    /\ plot_cartridge_response L_cart R_cart R_load C_total use_log_scale
         output_file output_dir show_phase []
       = (report_trace L_cart R_cart R_load C_total output_file output_dir
            show_phase aud ext p pe q, inr tt).
Proof.
  intros aud ext.
  destruct (sweeps_ready L_cart R_cart R_load C_total)
    as (p & pe & q & Hp & Hpk & Hpe & Hpke & Hq & F).
  fold aud ext in Hp, Hpk, Hpe, Hpke, Hq, F.
  destruct F as (F1 & F2 & F3 & F4 & F5 & F6 & F7).
  exists p, pe, q.
  repeat match goal with |- _ /\ _ => split; [assumption|] end.
  unfold plot_cartridge_response, call_calculator.
  fold aud ext.
  clear Hpk Hpke. clearbody aud ext.
  unfold report_trace.
  destruct show_phase;
    repeat (run_render; use_sweep_fact);
    run_render;
    rewrite interpretation_run; reflexivity.
Qed.

(** X14. The console report does not depend on the display options: with
    the same circuit and the same output file, runs with any scale flag and
    any phase flag print the same lines. *)
Theorem report_ignores_display_flags
  (L_cart R_cart R_load C_total : R) (output_file output_dir : string)
  (scale1 phase1 scale2 phase2 : bool) :
  printed (fst (plot_cartridge_response L_cart R_cart R_load C_total
                  scale1 output_file output_dir phase1 []))
  = printed (fst (plot_cartridge_response L_cart R_cart R_load C_total
                    scale2 output_file output_dir phase2 [])).
Proof.
  destruct (renderer_trace L_cart R_cart R_load C_total scale1
              output_file output_dir phase1)
    as (p1 & pe1 & q1 & Hp1 & _ & _ & _ & Hrun1).
  destruct (renderer_trace L_cart R_cart R_load C_total scale2
              output_file output_dir phase2)
    as (p2 & pe2 & q2 & Hp2 & _ & _ & _ & Hrun2).
  rewrite Hrun1, Hrun2. cbn [fst].
  assert (Ep : p1 = p2) by congruence. subst p2.
  clear Hp1 Hp2 Hrun1 Hrun2.
  set (aud := cartridge_frequency_response L_cart R_cart R_load C_total
                (20, 20000) 2000).
  set (ext := cartridge_frequency_response L_cart R_cart R_load C_total
                (20, 50000) 3000).
  clearbody aud ext.
  unfold report_trace.
  destruct phase1, phase2;
    destruct (tier_spec (nth p1 (magnitude_dB aud) 0)); reflexivity.
Qed.

(** X15. On a valid circuit a run of the renderer with the default output
    file and directory, as the entry point makes it, has one shape whenever
    the directory can be created and the figure written: the two calculator
    calls and the legend labels (five with the phase shown, three without)
    come first, then the directory is created and the figure saved, and only
    then the console report is printed, twenty lines. *)
Theorem trace_shape
  (L_cart R_cart R_load C_total : R) (use_log_scale show_phase : bool) :
  0 < L_cart -> 0 < C_total -> 0 < R_load -> 0 <= R_cart ->
  let trace := fst (plot_cartridge_response L_cart R_cart R_load C_total
                      use_log_scale "cartridge_loading_response.png" "."
                      show_phase []) in
  let k := (2 + if show_phase then 5 else 3)%nat in
  forallb (fun e => is_calc e || is_legend e) (firstn k trace) = true
  /\ List.length (legends trace) = (if show_phase then 5 else 3)%nat
  /\ skipn k trace
     = EvMakedirs "."
       :: EvSavefig (PathJoin "." "cartridge_loading_response.png")
       :: map EvPrint (printed trace)
  /\ List.length (printed trace) = 20%nat.
Proof.
  intros HL HC HR HRc trace k. unfold trace, k.
  destruct (renderer_trace L_cart R_cart R_load C_total use_log_scale
              "cartridge_loading_response.png" "." show_phase)
    as (p & pe & q & _ & _ & _ & _ & Hrun).
  rewrite Hrun. cbn [fst]. clear Hrun.
  set (aud := cartridge_frequency_response L_cart R_cart R_load C_total
                (20, 20000) 2000).
  set (ext := cartridge_frequency_response L_cart R_cart R_load C_total
                (20, 50000) 3000).
  clearbody aud ext.
  unfold report_trace.
  destruct show_phase;
    destruct (tier_spec (nth p (magnitude_dB aud) 0));
    repeat split; reflexivity.
Qed.

(** The default circuit, with the phase shown. *)
Lemma trace_shape_witness :
  List.length
    (printed (fst (plot_cartridge_response 500 600 47 200 true
                     "cartridge_loading_response.png" "." true [])))
  = 20%nat.
Proof.
  assert (V : 0 < 500 /\ 0 < 200 /\ 0 < 47 /\ 0 <= 600) by lra.
  destruct V as (V1 & V2 & V3 & V4).
  exact (proj2 (proj2 (proj2
    (trace_shape 500 600 47 200 true true V1 V2 V3 V4)))).
Defined.

(** X16. The legend of the extended panel reports the peak of the extended
    sweep, found by argmax of the extended magnitudes, and, with the phase
    shown, the phase at the extended-sweep sample closest to the ideal
    resonance; the audible panel reports the audible peak.  Without the
    phase only the two magnitude labels and the ideal-resonance label are
    made. *)
Theorem legends_of_the_panels
  (L_cart R_cart R_load C_total : R) (use_log_scale : bool)
  (output_file output_dir : string) :
  let aud := cartridge_frequency_response L_cart R_cart R_load C_total
               (20, 20000) 2000 in
  let ext := cartridge_frequency_response L_cart R_cart R_load C_total
               (20, 50000) 3000 in
  let run := fun show_phase =>
    fst (plot_cartridge_response L_cart R_cart R_load C_total
           use_log_scale output_file output_dir show_phase []) in
  exists p pe q,
    Np.argmax (magnitude_dB aud) = Some p
    /\ Np.argmax (magnitude_dB ext) = Some pe
    /\ is_peak (magnitude_dB ext) pe
    /\ is_nearest (frequencies ext) (f_res_ideal aud) q
    /\ let audible_label :=
         [Txt "Magnitude (Peak: "; Num (nth p (frequencies aud) 0) ".0f";
          Txt "Hz @ "; Num (nth p (magnitude_dB aud) 0) ".2f";
          Txt "dB, Q="; Num (Q aud) ".2f"; Txt ")"] in
       let extended_label :=
         [Txt "Magnitude (Peak: "; Num (nth pe (frequencies ext) 0) ".0f";
          Txt "Hz @ "; Num (nth pe (magnitude_dB ext) 0) ".2f";
          Txt "dB, Ideal LC: "; Num (f_res_ideal aud) ".0f"; Txt "Hz)"] in
       let ideal_label :=
         [Txt "Ideal LC: "; Num (f_res_ideal aud) ".0f"; Txt "Hz"] in
       legends (run true)
       = [audible_label;
          [Txt "Phase (@ peak: "; Num (nth p (phase_deg aud) 0) ".1f";
           Txt "°)"];
          extended_label;
          ideal_label;
          [Txt "Phase (@ peak: "; Num (nth pe (phase_deg ext) 0) ".1f";
           Txt "°, @ ideal LC: "; Num (nth q (phase_deg ext) 0) ".1f";
           Txt "°)"]]
       /\ legends (run false)
          = [audible_label; extended_label; ideal_label].
Proof.
  intros aud ext run.
  destruct (renderer_trace_nearest L_cart R_cart R_load C_total
              use_log_scale output_file output_dir true)
    as (p & pe & q & Hp & Hpe & Hq & Hrun1).
  destruct (renderer_trace_nearest L_cart R_cart R_load C_total
              use_log_scale output_file output_dir false)
    as (p' & pe' & q' & Hp' & Hpe' & _ & Hrun2).
  fold aud ext in Hp, Hpe, Hq, Hrun1, Hp', Hpe', Hrun2.
  assert (Ep : p' = p) by congruence.
  assert (Epe : pe' = pe) by congruence.
  subst p' pe'.
  exists p, pe, q.
  split; [exact Hp|]. split; [exact Hpe|].
  split; [apply argmax_peak; exact Hpe|].
  split; [apply argmin_nearest; exact Hq|].
  unfold run. rewrite Hrun1, Hrun2. cbn [fst].
  clear Hp Hpe Hq Hrun1 Hrun2 Hp' Hpe' run.
  clearbody aud ext.
  unfold report_trace.
  destruct (tier_spec (nth p (magnitude_dB aud) 0)); split; reflexivity.
Qed.

(** On a valid circuit that meets the heavy-damping condition the peak that
    argmax finds in the audible sweep is at most 0 dB, so the report closes
    with the well-damped tier. *)
Lemma no_peak_report
  (L_cart R_cart R_load C_total : R) (use_log_scale show_phase : bool) :
  0 < L_cart -> 0 < C_total -> 0 < R_load -> 0 <= R_cart ->
  let L := L_cart * (1 / 1000) in
  let R := R_load * 1000 in
  let C := C_total * (1 / 1000000000000) in
  2 * (1 + R_cart / R) * (L * C)
  <= (L / R + R_cart * C) * (L / R + R_cart * C) ->
  let aud := cartridge_frequency_response L_cart R_cart R_load C_total
               (20, 20000) 2000 in
  let trace := fst (plot_cartridge_response L_cart R_cart R_load C_total
                      use_log_scale "cartridge_loading_response.png" "."
                      show_phase []) in
  exists p,
    Np.argmax (magnitude_dB aud) = Some p
    /\ after_line (nl ++ "Interpretation:") trace
       = (tier_lines WellDamped (nth p (magnitude_dB aud) 0)
                     (nth p (frequencies aud) 0)
          ++ [EvPrint [Txt (str_mul "=" 60)]])%list.
Proof.
  intros HL HC HR HRc L R C Hheavy aud trace.
  assert (Hn : (1 <= 2000)%nat) by (apply Nat.leb_le; reflexivity).
  assert (H0 : (0 < 2000)%nat) by (apply Nat.ltb_lt; reflexivity).
  assert (V : 0 < 20 /\ 20 < 20000) by lra.
  destruct V as (V1 & V2).
  destruct (no_peak_samples L_cart R_cart R_load C_total 20 20000 2000
              HL HC HR HRc V1 V2 Hn Hheavy) as (_ & Hneg & Hfirst).
  fold aud in Hneg, Hfirst.
  pose proof (Hneg 0%nat H0) as Hm0.
  assert (Htier : tier_spec (nth 0 (magnitude_dB aud) 0) = WellDamped).
  { unfold tier_spec.
    destruct (Rgt_dec _ 3); [lra|]. destruct (Rgt_dec _ 1); [lra|].
    reflexivity. }
  destruct (renderer_trace L_cart R_cart R_load C_total use_log_scale
              "cartridge_loading_response.png" "." show_phase)
    as (p & pe & q & Hp & _ & _ & _ & Hrun).
  fold aud in Hp, Hrun.
  assert (Ep : p = 0%nat) by congruence. subst p.
  exists 0%nat. split; [exact Hfirst|].
  unfold trace. rewrite Hrun. cbn [fst].
  unfold report_trace. rewrite Htier.
  clear Hrun Hp Hfirst Hneg Hm0 Htier trace.
  clearbody aud.
  destruct show_phase; reflexivity.
Qed.

(** X6. On a valid circuit with
    (L/R_load + R_cart C)^2 >= 2 (1 + R_cart/R_load) L C the report of the
    renderer, run with the default output file and directory, closes with
    the well-damped tier: the two lines after the Interpretation heading are
    the well-damped confirmation for the audible peak that argmax finds. *)
Theorem heavily_damped_is_reported_well_damped
  (L_cart R_cart R_load C_total : R) (use_log_scale show_phase : bool) :
  0 < L_cart -> 0 < C_total -> 0 < R_load -> 0 <= R_cart ->
  let L := L_cart * (1 / 1000) in
  let R := R_load * 1000 in
  let C := C_total * (1 / 1000000000000) in
  2 * (1 + R_cart / R) * (L * C)
  <= (L / R + R_cart * C) * (L / R + R_cart * C) ->
  let aud := cartridge_frequency_response L_cart R_cart R_load C_total
               (20, 20000) 2000 in
  let trace := fst (plot_cartridge_response L_cart R_cart R_load C_total
                      use_log_scale "cartridge_loading_response.png" "."
                      show_phase []) in
  exists p,
    Np.argmax (magnitude_dB aud) = Some p
    /\ after_line (nl ++ "Interpretation:") trace
       = (tier_lines WellDamped (nth p (magnitude_dB aud) 0)
                     (nth p (frequencies aud) 0)
          ++ [EvPrint [Txt (str_mul "=" 60)]])%list.
Proof.
  apply no_peak_report.
Qed.

(** One henry into one picofarad and one kilohm. *)
Lemma heavily_damped_is_reported_well_damped_witness :
  exists p,
    Np.argmax (magnitude_dB (cartridge_frequency_response
                               1000 0 1 1 (20, 20000) 2000)) = Some p
    /\ after_line (nl ++ "Interpretation:")
         (fst (plot_cartridge_response 1000 0 1 1 true
                 "cartridge_loading_response.png" "." true []))
       = (tier_lines WellDamped
            (nth p (magnitude_dB (cartridge_frequency_response
                                    1000 0 1 1 (20, 20000) 2000)) 0)
            (nth p (frequencies (cartridge_frequency_response
                                   1000 0 1 1 (20, 20000) 2000)) 0)
          ++ [EvPrint [Txt (str_mul "=" 60)]])%list.
Proof.
  assert (V : 0 < 1000 /\ 0 < 1 /\ 0 <= 0
              /\ 2 * (1 + 0 / (1 * 1000))
                   * (1000 * (1 / 1000) * (1 * (1 / 1000000000000)))
                 <= (1000 * (1 / 1000) / (1 * 1000)
                     + 0 * (1 * (1 / 1000000000000)))
                    * (1000 * (1 / 1000) / (1 * 1000)
                       + 0 * (1 * (1 / 1000000000000)))) by lra.
  destruct V as (V1 & V2 & V3 & V4).
  exact (heavily_damped_is_reported_well_damped 1000 0 1 1 true true
           V1 V2 V2 V3 V4).
Defined.

(** X17. When the quality factor that the calculator returns is at least
    sqrt 2 on a valid circuit, the report of the renderer, run with the
    default output file and directory, contradicts itself: its damping line
    reads Under-damped (resonant peak visible) while its interpretation is
    the well-damped tier. *)
Theorem high_Q_reports_no_peak
  (L_cart R_cart R_load C_total : R) (use_log_scale show_phase : bool) :
  0 < L_cart -> 0 < C_total -> 0 < R_load -> 0 <= R_cart ->
  let aud := cartridge_frequency_response L_cart R_cart R_load C_total
               (20, 20000) 2000 in
  let trace := fst (plot_cartridge_response L_cart R_cart R_load C_total
                      use_log_scale "cartridge_loading_response.png" "."
                      show_phase []) in
  sqrt 2 <= Q aud ->
  lines_with "  Damping:             " (printed trace)
  = [[Txt "  Damping:             ";
      Txt "Under-damped (resonant peak visible)"]]
  /\ exists p,
       Np.argmax (magnitude_dB aud) = Some p
       /\ after_line (nl ++ "Interpretation:") trace
          = (tier_lines WellDamped (nth p (magnitude_dB aud) 0)
                        (nth p (frequencies aud) 0)
             ++ [EvPrint [Txt (str_mul "=" 60)]])%list.
Proof.
  intros HL HC HR HRc aud trace HQ.
  assert (HRl : 0 < R_load * 1000) by lra.
  assert (HLh : 0 < L_cart * (1 / 1000)) by lra.
  assert (HCf : 0 < C_total * (1 / 1000000000000)) by lra.
  change (Q aud)
    with (sqrt (L_cart * (1 / 1000) / (C_total * (1 / 1000000000000)))
          / (R_cart + R_load * 1000)) in HQ.
  pose proof (proj1 (Q_at_least_sqrt2 R_cart (R_load * 1000)
                       (L_cart * (1 / 1000))
                       (C_total * (1 / 1000000000000))
                       HRc HRl HLh HCf) HQ) as Hcond.
  pose proof (high_Q_is_heavy_damping _ _ _ _ HRc HRl HLh HCf Hcond)
    as Hheavy.
  split.
  - assert (Hlabel : damping_label (Q aud)
                     = "Under-damped (resonant peak visible)").
    { unfold damping_label.
      change (Q aud)
        with (sqrt (L_cart * (1 / 1000) / (C_total * (1 / 1000000000000)))
              / (R_cart + R_load * 1000)).
      destruct (Rgt_dec _ 1) as [_|Hn1]; [reflexivity|].
      pose proof sqrt2_above_one. lra. }
    destruct (renderer_trace L_cart R_cart R_load C_total use_log_scale
                "cartridge_loading_response.png" "." show_phase)
      as (p & pe & q & _ & _ & _ & _ & Hrun).
    fold aud in Hrun.
    unfold trace. rewrite Hrun. cbn [fst].
    clear Hrun HQ trace.
    unfold report_trace. rewrite Hlabel.
    destruct show_phase;
      destruct (tier_spec (nth p (magnitude_dB aud) 0)); reflexivity.
  - exact (no_peak_report L_cart R_cart R_load C_total use_log_scale
             show_phase HL HC HR HRc Hheavy).
Qed.

(** One henry into one picofarad and one kilohm: Q is 1000. *)
Lemma high_Q_reports_no_peak_witness :
  lines_with "  Damping:             "
    (printed (fst (plot_cartridge_response 1000 0 1 1 true
                     "cartridge_loading_response.png" "." true [])))
  = [[Txt "  Damping:             ";
      Txt "Under-damped (resonant peak visible)"]].
Proof.
  assert (V : 0 < 1000 /\ 0 < 1 /\ 0 <= 0
              /\ 0 < 1 * 1000 /\ 0 < 1000 * (1 / 1000)
              /\ 0 < 1 * (1 / 1000000000000)
              /\ 2 * (1 * (1 / 1000000000000))
                   * ((0 + 1 * 1000) * (0 + 1 * 1000))
                 <= 1000 * (1 / 1000)) by lra.
  destruct V as (V1 & V2 & V3 & V5 & V6 & V7 & V8).
  assert (HQ : sqrt 2 <= Q (cartridge_frequency_response
                              1000 0 1 1 (20, 20000) 2000)).
  { change (Q (cartridge_frequency_response 1000 0 1 1 (20, 20000) 2000))
      with (sqrt (1000 * (1 / 1000) / (1 * (1 / 1000000000000)))
            / (0 + 1 * 1000)).
    apply (proj2 (Q_at_least_sqrt2 0 (1 * 1000) (1000 * (1 / 1000))
                    (1 * (1 / 1000000000000)) V3 V5 V6 V7)).
    exact V8. }
  exact (proj1 (high_Q_reports_no_peak 1000 0 1 1 true true
                  V1 V2 V2 V3 HQ)).
Defined.

(** * Further properties of the option parsing *)

Lemma lstrip_padding (pad s : string) :
  all_space pad = true -> lstrip (pad ++ s) = lstrip s.
Proof.
  induction pad as [|c pad IH]; simpl; intros H.
  - reflexivity.
  - apply andb_prop in H. destruct H as (Hc & Hp).
    rewrite Hc. apply IH. exact Hp.
Qed.

Lemma rstrip_all_space (pad : string) :
  all_space pad = true -> rstrip pad = "".
Proof.
  induction pad as [|c pad IH]; simpl; intros H.
  - reflexivity.
  - apply andb_prop in H. destruct H as (Hc & Hp).
    rewrite (IH Hp), Hc. reflexivity.
Qed.

Lemma rstrip_padding (s pad : string) :
  all_space pad = true -> rstrip (s ++ pad) = rstrip s.
Proof.
  intros Hp. induction s as [|c s IH]; simpl.
  - apply rstrip_all_space. exact Hp.
  - rewrite IH. reflexivity.
Qed.

Lemma lstrip_all_space (pad : string) :
  all_space pad = true -> lstrip pad = "".
Proof.
  induction pad as [|c pad IH]; simpl; intros H.
  - reflexivity.
  - apply andb_prop in H. destruct H as (Hc & Hp).
    rewrite Hc. apply IH. exact Hp.
Qed.

Lemma strip_right_padding (s pad : string) :
  all_space pad = true -> rstrip (lstrip (s ++ pad)) = rstrip (lstrip s).
Proof.
  intros Hp. induction s as [|c s IH].
  - simpl. rewrite (lstrip_all_space pad Hp). reflexivity.
  - cbn [append lstrip]. destruct (is_space c).
    + exact IH.
    + change (String c (s ++ pad)) with (String c s ++ pad).
      apply rstrip_padding. exact Hp.
Qed.

Lemma strip_padding (pad1 s pad2 : string) :
  all_space pad1 = true -> all_space pad2 = true ->
  strip (pad1 ++ s ++ pad2) = strip s.
Proof.
  intros H1 H2. unfold strip.
  rewrite lstrip_padding by exact H1.
  apply strip_right_padding. exact H2.
Qed.

Lemma is_space_lower_char (c : ascii) :
  is_space (lower_char c) = is_space c.
Proof.
  destruct c as [[] [] [] [] [] [] [] []]; reflexivity.
Qed.

Lemma lower_lstrip (s : string) : lower (lstrip s) = lstrip (lower s).
Proof.
  induction s as [|c s IH]; simpl; [reflexivity|].
  rewrite is_space_lower_char.
  destruct (is_space c); [exact IH | reflexivity].
Qed.

Lemma lower_rstrip (s : string) : lower (rstrip s) = rstrip (lower s).
Proof.
  induction s as [|c s IH]; simpl; [reflexivity|].
  rewrite <- IH, is_space_lower_char.
  destruct (rstrip s); simpl; [destruct (is_space c)|]; reflexivity.
Qed.

Lemma lower_strip (s : string) : lower (strip s) = strip (lower s).
Proof.
  unfold strip. rewrite lower_rstrip, lower_lstrip. reflexivity.
Qed.

(** X18. The answers at the two option prompts are read without regard to
    surrounding white space and to letter case: padding an answer with
    white space on either side, or replacing it by any answer with the same
    lower-case form, changes neither flag. *)
Theorem interactive_flags_padding_and_case :
  (forall pad1 s pad2,
      all_space pad1 = true -> all_space pad2 = true ->
      interactive_use_log (pad1 ++ s ++ pad2) = interactive_use_log s
      /\ interactive_show_phase (pad1 ++ s ++ pad2)
         = interactive_show_phase s)
  /\ (forall s t,
         lower s = lower t ->
         interactive_use_log s = interactive_use_log t
         /\ interactive_show_phase s = interactive_show_phase t).
Proof.
  split.
  - intros pad1 s pad2 H1 H2.
    unfold interactive_use_log, interactive_show_phase.
    rewrite (strip_padding pad1 s pad2 H1 H2). split; reflexivity.
  - intros s t E.
    unfold interactive_use_log, interactive_show_phase.
    rewrite (lower_strip s), (lower_strip t), E. split; reflexivity.
Qed.

(** * The entry point *)

Lemma renderer_result (L_cart R_cart R_load C_total : R)
  (use_log_scale : bool) (output_file output_dir : string)
  (show_phase : bool) :
  snd (plot_cartridge_response L_cart R_cart R_load C_total use_log_scale
         output_file output_dir show_phase []) = inr tt.
Proof.
  destruct (renderer_trace L_cart R_cart R_load C_total use_log_scale
              output_file output_dir show_phase)
    as (p & pe & q & _ & _ & _ & _ & Hrun).
  rewrite Hrun. reflexivity.
Qed.

Lemma call_renderer_run (L_cart R_cart R_load C_total : R)
  (use_log show_phase : bool) (w : world) :
  call_renderer L_cart R_cart R_load C_total use_log show_phase w
  = (mkWorld (pending w)
       (shown w ++ map Render (default_render L_cart R_cart R_load C_total
                                 use_log show_phase))%list,
     inr tt).
Proof.
  unfold call_renderer, default_render.
  pose proof (renderer_result L_cart R_cart R_load C_total use_log
                "cartridge_loading_response.png" "." show_phase) as Hr.
  destruct (plot_cartridge_response L_cart R_cart R_load C_total use_log
              "cartridge_loading_response.png" "." show_phase [])
    as [trace result].
  cbn [snd] in Hr. subst result. reflexivity.
Qed.

(** One step of symbolic execution of the script. *)
Ltac run_io :=
  cbv beta iota zeta
      delta [io_bind io_ret io_raise try_except write say sys_exit
             pending shown].

Section Entry.

Variable float_of : string -> option R.

Lemma usage_exit (w : world) :
  (print_usage ;;; sys_exit 1)%io w
  = (mkWorld (pending w) (shown w ++ usage_lines)%list,
     (inl (RSystemExit 1) : raised + unit)).
Proof.
  destruct w as [pd sh].
  unfold print_usage, sys_exit, io_bind, say, write, io_raise.
  cbn [pending shown]. unfold usage_lines.
  repeat rewrite <- app_assoc. reflexivity.
Qed.

(** The command-line mode, whatever the arguments: the renderer runs on the
    four numbers when they are all there and parse, the usage text is printed
    and the script exits with status 1 otherwise. *)
Lemma cli_mode_run (argv : list string) (answers : list answer) :
  (1 < List.length argv)%nat ->
  run_main float_of argv answers
  = match cli_numbers float_of argv with
    | Some (L_cart, R_cart, R_load, C_total) =>
        (mkWorld answers
           (Say [Txt (nl ++ "Generating cartridge loading plot...")]
            :: map Render (default_render L_cart R_cart R_load C_total
                             (cli_use_log argv) (cli_show_phase argv))),
         inr tt)
    | None => (mkWorld answers usage_lines, inl (RSystemExit 1))
    end.
Proof.
  intros Hlen. unfold run_main, main.
  assert (E : (1 <? List.length argv)%nat = true)
    by (apply Nat.ltb_lt; exact Hlen).
  rewrite E. clear E.
  unfold cli_mode.
  destruct argv as [|prog [|a1 rest]]; try (simpl in Hlen; lia).
  clear Hlen.
  set (ul := cli_use_log (prog :: a1 :: rest)).
  set (sp := cli_show_phase (prog :: a1 :: rest)).
  unfold cli_numbers.
  set (usage := (print_usage ;;; sys_exit 1)%io).
  assert (Husage : forall w, usage w
            = (mkWorld (pending w) (shown w ++ usage_lines)%list,
               (inl (RSystemExit 1) : raised + unit)))
    by (intros w; apply usage_exit).
  clearbody usage.
  destruct rest as [|a2 [|a3 [|a4 rest]]];
    destruct (float_of a1) as [x1|] eqn:F1;
    try destruct (float_of a2) as [x2|] eqn:F2;
    try destruct (float_of a3) as [x3|] eqn:F3;
    try destruct (float_of a4) as [x4|] eqn:F4;
    repeat (cbv beta iota zeta
                delta [io_bind io_ret io_raise try_except argv_at nth_error
                       float say write pending shown];
            try match goal with
                | H : float_of _ = _ |- _ => rewrite H
                end);
    first [ rewrite Husage; reflexivity
          | rewrite call_renderer_run; reflexivity ].
Qed.

Lemma cli_numbers_missing (argv : list string) :
  (List.length argv < 5)%nat -> cli_numbers float_of argv = None.
Proof.
  intros Hlen.
  destruct argv as [|prog [|a1 [|a2 [|a3 [|a4 rest]]]]];
    try reflexivity.
  simpl in Hlen. lia.
Qed.

Lemma cli_numbers_unreadable (argv : list string) (i : nat) :
  (1 <= i <= 4)%nat -> float_of (nth i argv "") = None ->
  cli_numbers float_of argv = None.
Proof.
  intros Hi Hbad.
  destruct argv as [|prog [|a1 [|a2 [|a3 [|a4 rest]]]]];
    try reflexivity.
  unfold cli_numbers.
  assert (Ei : i = 1%nat \/ i = 2%nat \/ i = 3%nat \/ i = 4%nat) by lia.
  destruct Ei as [E|[E|[E|E]]]; subst i; simpl in Hbad; rewrite Hbad;
    repeat match goal with
           | |- context [match float_of ?a with _ => _ end] =>
               destruct (float_of a)
           end; reflexivity.
Qed.

(** X7. In command-line mode, when fewer than four values follow the program
    name, or one of the four is not read by float, the script prints the
    usage text and nothing else, does not run the renderer, leaves standard
    input untouched and exits with status 1. *)
Theorem cli_usage_on_bad_arguments (argv : list string)
  (answers : list answer) :
  (1 < List.length argv)%nat ->
  (List.length argv < 5)%nat
  \/ (exists i, (1 <= i <= 4)%nat /\ float_of (nth i argv "") = None) ->
  let (w, result) := run_main float_of argv answers in
  shown w = usage_lines
  /\ rendered (shown w) = []
  /\ pending w = answers
  /\ result = inl (RSystemExit 1)
  /\ exit_status result = 1%nat.
Proof.
  intros Hlen Hbad.
  rewrite (cli_mode_run argv answers Hlen).
  assert (E : cli_numbers float_of argv = None).
  { destruct Hbad as [Hshort|(i & Hi & Hnone)].
    - apply cli_numbers_missing. exact Hshort.
    - apply (cli_numbers_unreadable argv i Hi Hnone). }
  rewrite E. repeat split; reflexivity.
Qed.

Lemma rendered_of_render (l : list event) : rendered (map Render l) = l.
Proof.
  unfold rendered. induction l as [|e l IH]; simpl; [reflexivity|].
  f_equal. exact IH.
Qed.

(** X8. In command-line mode, when float reads the four values and they are
    a valid circuit (L, C, R_load > 0, R_cart >= 0), the script prints one
    line and runs the renderer once, on these four values, with the scale
    and phase flags of the fifth and sixth arguments and the default output
    file; it ends normally with status 0. *)
Theorem cli_renders_parsed_values (prog a1 a2 a3 a4 : string)
  (options : list string) (answers : list answer)
  (L_cart R_cart R_load C_total : R) :
  float_of a1 = Some L_cart -> float_of a2 = Some R_cart ->
  float_of a3 = Some R_load -> float_of a4 = Some C_total ->
  0 < L_cart -> 0 < C_total -> 0 < R_load -> 0 <= R_cart ->
  let argv := prog :: a1 :: a2 :: a3 :: a4 :: options in
  let (w, result) := run_main float_of argv answers in
  shown w
  = Say [Txt (nl ++ "Generating cartridge loading plot...")]
    :: map Render
         (fst (plot_cartridge_response L_cart R_cart R_load C_total
                 (cli_use_log argv) "cartridge_loading_response.png" "."
                 (cli_show_phase argv) []))
  /\ rendered (shown w)
     = fst (plot_cartridge_response L_cart R_cart R_load C_total
              (cli_use_log argv) "cartridge_loading_response.png" "."
              (cli_show_phase argv) [])
  /\ pending w = answers
  /\ result = inr tt
  /\ exit_status result = 0%nat.
Proof.
  intros F1 F2 F3 F4 HL HC HR HRc argv.
  assert (Hlen : (1 < List.length argv)%nat) by (simpl; lia).
  rewrite (cli_mode_run argv answers Hlen).
  unfold argv at 1, cli_numbers. rewrite F1, F2, F3, F4.
  repeat split; try reflexivity.
  cbn [shown rendered flat_map app].
  apply rendered_of_render.
Qed.

Lemma cli_use_log_more (argv extra : list string) :
  (6 <= List.length argv)%nat ->
  cli_use_log (argv ++ extra) = cli_use_log argv.
Proof.
  intros Hlen. unfold cli_use_log.
  rewrite length_app.
  assert (E1 : (5 <? List.length argv + List.length extra)%nat = true)
    by (apply Nat.ltb_lt; lia).
  assert (E2 : (5 <? List.length argv)%nat = true)
    by (apply Nat.ltb_lt; lia).
  rewrite E1, E2, app_nth1 by lia. reflexivity.
Qed.

Lemma cli_show_phase_more (argv extra : list string) :
  (7 <= List.length argv)%nat ->
  cli_show_phase (argv ++ extra) = cli_show_phase argv.
Proof.
  intros Hlen. unfold cli_show_phase.
  rewrite length_app.
  assert (E1 : (6 <? List.length argv + List.length extra)%nat = true)
    by (apply Nat.ltb_lt; lia).
  assert (E2 : (6 <? List.length argv)%nat = true)
    by (apply Nat.ltb_lt; lia).
  rewrite E1, E2, app_nth1 by lia. reflexivity.
Qed.

Lemma cli_numbers_more (argv extra : list string) :
  (5 <= List.length argv)%nat ->
  cli_numbers float_of (argv ++ extra) = cli_numbers float_of argv.
Proof.
  intros Hlen.
  destruct argv as [|prog [|a1 [|a2 [|a3 [|a4 rest]]]]];
    try (simpl in Hlen; lia).
  reflexivity.
Qed.

(** X9. Command-line arguments after the sixth are ignored: a command line
    with at least six arguments after the program name behaves the same
    with any further arguments appended. *)
Theorem cli_ignores_further_arguments (argv extra : list string)
  (answers : list answer) :
  (7 <= List.length argv)%nat ->
  run_main float_of (argv ++ extra) answers = run_main float_of argv answers.
Proof.
  intros Hlen.
  rewrite (cli_mode_run (argv ++ extra) answers)
    by (rewrite length_app; lia).
  rewrite (cli_mode_run argv answers) by lia.
  rewrite cli_numbers_more by lia.
  rewrite cli_use_log_more by lia.
  rewrite cli_show_phase_more by lia.
  reflexivity.
Qed.

End Entry.

(** The command line [prog 500 abc]. *)
Lemma cli_usage_on_bad_arguments_witness :
  shown (fst (run_main sample_float_of ["prog"; "500"; "abc"] []))
  = usage_lines.
Proof.
  assert (H1 : (1 < List.length ["prog"; "500"; "abc"])%nat)
    by (simpl; lia).
  assert (H2 : (List.length ["prog"; "500"; "abc"] < 5)%nat
               \/ (exists i, (1 <= i <= 4)%nat
                   /\ sample_float_of (nth i ["prog"; "500"; "abc"] "")
                      = None)).
  { right. exists 2%nat. split; [lia | reflexivity]. }
  pose proof (cli_usage_on_bad_arguments sample_float_of
                ["prog"; "500"; "abc"] [] H1 H2) as H.
  destruct (run_main sample_float_of ["prog"; "500"; "abc"] [])
    as [w result].
  exact (proj1 H).
Defined.

(** The command line of the usage text: [prog 500 600 47 200 log yes]. *)
Lemma cli_renders_parsed_values_witness :
  exit_status
    (snd (run_main sample_float_of
            ["prog"; "500"; "600"; "47"; "200"; "log"; "yes"] [])) = 0%nat.
Proof.
  assert (V : 0 < 500 /\ 0 < 200 /\ 0 < 47 /\ 0 <= 600) by lra.
  destruct V as (V1 & V2 & V3 & V4).
  pose proof (cli_renders_parsed_values sample_float_of
                "prog" "500" "600" "47" "200" ["log"; "yes"] []
                500 600 47 200 eq_refl eq_refl eq_refl eq_refl
                V1 V2 V3 V4) as H.
  cbv zeta in H.
  destruct (run_main sample_float_of
              ["prog"; "500"; "600"; "47"; "200"; "log"; "yes"] [])
    as [w result].
  exact (proj2 (proj2 (proj2 (proj2 H)))).
Defined.

Lemma cli_ignores_further_arguments_witness :
  run_main sample_float_of
    (["prog"; "500"; "600"; "47"; "200"; "log"; "yes"] ++ ["more"]) []
  = run_main sample_float_of
      ["prog"; "500"; "600"; "47"; "200"; "log"; "yes"] [].
Proof.
  apply cli_ignores_further_arguments. simpl. lia.
Defined.

Section Interactive.

Variable float_of : string -> option R.

Lemma prompt_float_typed (prompt : string) (default : R) (line : string)
  (rest : list answer) (sh : list out) :
  prompt_float float_of prompt default (mkWorld (Typed line :: rest) sh)
  = (mkWorld rest (sh ++ [Ask prompt])%list,
     match number_read float_of default line with
     | Some x => inr x
     | None => inl (RValueError (BadFloat (strip line)))
     end).
Proof.
  unfold prompt_float, io_bind, input, number_read, float.
  cbn [pending shown].
  destruct (nonempty (strip line)); [|reflexivity].
  destruct (float_of (strip line)); reflexivity.
Qed.

Lemma prompt_float_interrupt (prompt : string) (default : R)
  (rest : list answer) (sh : list out) :
  prompt_float float_of prompt default (mkWorld (Interrupt :: rest) sh)
  = (mkWorld rest (sh ++ [Ask prompt])%list, inl RKeyboardInterrupt).
Proof.
  reflexivity.
Qed.

Lemma prompt_float_eof (prompt : string) (default : R) (sh : list out) :
  prompt_float float_of prompt default (mkWorld [] sh)
  = (mkWorld [] (sh ++ [Ask prompt])%list, inl REOFError).
Proof.
  reflexivity.
Qed.

(** Whether a typed line yields a number does not depend on the default. *)
Lemma number_read_any_default (d d' : R) (line : string) :
  number_read float_of d line <> None ->
  exists x, number_read float_of d' line = Some x.
Proof.
  unfold number_read.
  destruct (nonempty (strip line)).
  - destruct (float_of (strip line)) as [x|]; [|congruence].
    intros _. exists x. reflexivity.
  - intros _. exists d'. reflexivity.
Qed.

Lemma number_read_blank (d : R) (line : string) :
  strip line = "" -> number_read float_of d line = Some d.
Proof.
  intros E. unfold number_read. rewrite E. reflexivity.
Qed.

Lemma interactive_mode_selected (argv : list string) :
  (List.length argv <= 1)%nat ->
  main float_of argv = interactive_mode float_of.
Proof.
  intros Hlen. unfold main.
  assert (E : (1 <? List.length argv)%nat = false)
    by (apply Nat.ltb_ge; exact Hlen).
  rewrite E. reflexivity.
Qed.

(** Symbolic execution of the interactive mode: unfold the script's monad,
    read typed lines through [prompt_float_typed], and use the facts at hand
    about the numbers read. *)
Ltac run_interactive :=
  repeat (cbv beta iota zeta
              delta [io_bind io_ret io_raise try_except say write sys_exit
                     input pending shown];
          try rewrite prompt_float_typed;
          try rewrite prompt_float_interrupt;
          try rewrite prompt_float_eof;
          try match goal with
              | H : number_read float_of _ _ = _ |- _ => rewrite H
              end);
  try rewrite call_renderer_run.

(** Turn the hypothesis that the first lines of [good] yield numbers into
    one equation per prompt. *)
Ltac numbers_of_good :=
  repeat match goal with
         | H : Forall _ [] |- _ => clear H
         | H : Forall _ (firstn _ _) |- _ => cbn [firstn] in H
         | H : Forall _ (_ :: _) |- _ =>
             let H1 := fresh "Hok" in
             let H2 := fresh "Hrest" in
             pose proof (Forall_inv H) as H1;
             pose proof (Forall_inv_tail H) as H2;
             clear H; cbv beta in H1
         end.

Ltac number_for d line :=
  match goal with
  | H : number_read float_of _ line <> None |- _ =>
      let x := fresh "x" in
      let E := fresh "E" in
      destruct (number_read_any_default _ d line H) as (x & E)
  end.

(** X10. In interactive mode six blank answers (empty or white space only)
    accept every default: the six prompts are shown in order and the
    renderer runs once on 500 mH, 600 ohms, 47 kilohms and 200 pF with the
    logarithmic scale and the phase shown; the script ends with status 0. *)
Theorem interactive_defaults (argv : list string)
  (b1 b2 b3 b4 b5 b6 : string) (rest : list answer) :
  (List.length argv <= 1)%nat ->
  strip b1 = "" -> strip b2 = "" -> strip b3 = "" ->
  strip b4 = "" -> strip b5 = "" -> strip b6 = "" ->
  let (w, result) :=
    run_main float_of argv
      (Typed b1 :: Typed b2 :: Typed b3 :: Typed b4 :: Typed b5 :: Typed b6
       :: rest) in
  shown w
  = (banner_lines ++ map Ask prompts
     ++ Say [Txt (nl ++ "Generating cartridge loading plot...")]
        :: map Render
             (fst (plot_cartridge_response 500 600 47 200 true
                     "cartridge_loading_response.png" "." true [])))%list
  /\ pending w = rest
  /\ result = inr tt
  /\ exit_status result = 0%nat.
Proof.
  intros Hlen E1 E2 E3 E4 E5 E6.
  unfold run_main. rewrite (interactive_mode_selected argv Hlen).
  pose proof (number_read_blank 500 b1 E1) as N1.
  pose proof (number_read_blank 600 b2 E2) as N2.
  pose proof (number_read_blank 47 b3 E3) as N3.
  pose proof (number_read_blank 200 b4 E4) as N4.
  assert (U : interactive_use_log b5 = true)
    by (unfold interactive_use_log; rewrite E5; reflexivity).
  assert (P : interactive_show_phase b6 = true)
    by (unfold interactive_show_phase; rewrite E6; reflexivity).
  unfold interactive_mode.
  run_interactive.
  rewrite U, P.
  repeat split; reflexivity.
Qed.

(** X11. In interactive mode the first numeric answer that float does not
    read ends the session at once: after the prompts up to that answer the
    script prints the invalid-input line for the stripped answer, shows no
    further prompt, leaves the remaining answers unread, does not run the
    renderer, and exits with status 1. *)
Theorem interactive_stops_at_bad_number (argv : list string)
  (good : list string) (bad : string) (rest : list answer) :
  (List.length argv <= 1)%nat ->
  (List.length good < 4)%nat ->
  Forall (fun line => number_read float_of 0 line <> None) good ->
  number_read float_of 0 bad = None ->
  let (w, result) :=
    run_main float_of argv (map Typed good ++ Typed bad :: rest) in
  shown w
  = (banner_lines ++ map Ask (firstn (S (List.length good)) prompts)
     ++ [SayInvalid (BadFloat (strip bad))])%list
  /\ rendered (shown w) = []
  /\ pending w = rest
  /\ result = inl (RSystemExit 1)
  /\ exit_status result = 1%nat.
Proof.
  intros Hlen Hgood Hok Hbad.
  unfold run_main. rewrite (interactive_mode_selected argv Hlen).
  assert (Nbad : forall d, number_read float_of d bad = None).
  { intros d. revert Hbad. unfold number_read.
    destruct (nonempty (strip bad)); [tauto | discriminate]. }
  pose proof (Nbad 500) as B1. pose proof (Nbad 600) as B2.
  pose proof (Nbad 47) as B3. pose proof (Nbad 200) as B4.
  clear Hbad Nbad.
  unfold interactive_mode.
  destruct good as [|g1 [|g2 [|g3 [|g4 good]]]];
    try (simpl in Hgood; lia); clear Hgood;
    numbers_of_good;
    try number_for 500 g1; try number_for 600 g2; try number_for 47 g3;
    cbn [map app List.length firstn];
    run_interactive;
    repeat split; reflexivity.
Qed.

(** X12. In interactive mode a keyboard interrupt at any of the six prompts
    ends the session: the script prints the cancelled line after the prompt
    at which it was interrupted, does not run the renderer, and exits with
    status 1. *)
Theorem interactive_interrupt (argv : list string)
  (good : list string) (rest : list answer) :
  (List.length argv <= 1)%nat ->
  (List.length good < 6)%nat ->
  Forall (fun line => number_read float_of 0 line <> None)
         (firstn 4 good) ->
  let (w, result) :=
    run_main float_of argv (map Typed good ++ Interrupt :: rest) in
  shown w
  = (banner_lines ++ map Ask (firstn (S (List.length good)) prompts)
     ++ [Say [Txt (nl ++ nl ++ "✗ Cancelled by user")]])%list
  /\ rendered (shown w) = []
  /\ pending w = rest
  /\ result = inl (RSystemExit 1)
  /\ exit_status result = 1%nat.
Proof.
  intros Hlen Hgood Hok.
  unfold run_main. rewrite (interactive_mode_selected argv Hlen).
  unfold interactive_mode.
  destruct good as [|g1 [|g2 [|g3 [|g4 [|g5 [|g6 good]]]]]];
    try (simpl in Hgood; lia); clear Hgood;
    numbers_of_good;
    try number_for 500 g1; try number_for 600 g2; try number_for 47 g3;
    try number_for 200 g4;
    cbn [map app List.length firstn];
    run_interactive;
    repeat split; reflexivity.
Qed.

(** X13. In interactive mode the end of standard input is not handled: when
    the answers run out before the sixth, the script dies with EOFError
    right after showing the prompt it could not read, prints neither the
    cancelled line nor the invalid-input line, and does not run the
    renderer; the process status is 1. *)
Theorem interactive_end_of_input (argv : list string) (good : list string) :
  (List.length argv <= 1)%nat ->
  (List.length good < 6)%nat ->
  Forall (fun line => number_read float_of 0 line <> None)
         (firstn 4 good) ->
  let (w, result) := run_main float_of argv (map Typed good) in
  shown w
  = (banner_lines ++ map Ask (firstn (S (List.length good)) prompts))%list
  /\ rendered (shown w) = []
  /\ pending w = []
  /\ result = inl REOFError
  /\ exit_status result = 1%nat.
Proof.
  intros Hlen Hgood Hok.
  unfold run_main. rewrite (interactive_mode_selected argv Hlen).
  unfold interactive_mode.
  destruct good as [|g1 [|g2 [|g3 [|g4 [|g5 [|g6 good]]]]]];
    try (simpl in Hgood; lia); clear Hgood;
    numbers_of_good;
    try number_for 500 g1; try number_for 600 g2; try number_for 47 g3;
    try number_for 200 g4;
    cbn [map app List.length firstn];
    run_interactive;
    repeat split; reflexivity.
Qed.

End Interactive.

(** Six blank answers, some of them white space. *)
Lemma interactive_defaults_witness :
  exit_status
    (snd (run_main sample_float_of ["prog"]
            [Typed ""; Typed " "; Typed ""; Typed "  "; Typed ""; Typed ""]))
  = 0%nat.
Proof.
  assert (Hlen : (List.length ["prog"] <= 1)%nat) by (simpl; lia).
  pose proof (interactive_defaults sample_float_of ["prog"]
                "" " " "" "  " "" "" [] Hlen
                eq_refl eq_refl eq_refl eq_refl eq_refl eq_refl) as H.
  destruct (run_main sample_float_of ["prog"]
              [Typed ""; Typed " "; Typed ""; Typed "  "; Typed "";
               Typed ""]) as [w result].
  exact (proj2 (proj2 (proj2 H))).
Defined.

(** A readable inductance, then an unreadable resistance. *)
Lemma interactive_stops_at_bad_number_witness :
  pending
    (fst (run_main sample_float_of ["prog"]
            [Typed "500"; Typed "abc"; Typed "47"; Typed "200"]))
  = [Typed "47"; Typed "200"].
Proof.
  assert (Hlen : (List.length ["prog"] <= 1)%nat) by (simpl; lia).
  assert (Hgood : (List.length ["500"] < 4)%nat) by (simpl; lia).
  assert (Hok : Forall (fun line => number_read sample_float_of 0 line
                                    <> None) ["500"]).
  { constructor; [|constructor]. cbv. discriminate. }
  assert (Hbad : number_read sample_float_of 0 "abc" = None)
    by reflexivity.
  pose proof (interactive_stops_at_bad_number sample_float_of ["prog"]
                ["500"] "abc" [Typed "47"; Typed "200"]
                Hlen Hgood Hok Hbad) as H.
  cbn [map app] in H.
  destruct (run_main sample_float_of ["prog"]
              [Typed "500"; Typed "abc"; Typed "47"; Typed "200"])
    as [w result].
  exact (proj1 (proj2 (proj2 H))).
Defined.

(** An interrupt at the first prompt. *)
Lemma interactive_interrupt_witness :
  exit_status (snd (run_main sample_float_of [] [Interrupt])) = 1%nat.
Proof.
  assert (Hlen : (List.length (@nil string) <= 1)%nat) by (simpl; lia).
  assert (Hgood : (List.length (@nil string) < 6)%nat) by (simpl; lia).
  assert (Hok : Forall (fun line => number_read sample_float_of 0 line
                                    <> None) (firstn 4 (@nil string)))
    by constructor.
  pose proof (interactive_interrupt sample_float_of [] [] []
                Hlen Hgood Hok) as H.
  cbn [map app] in H.
  destruct (run_main sample_float_of [] [Interrupt]) as [w result].
  exact (proj2 (proj2 (proj2 (proj2 H)))).
Defined.

(** Standard input closed after two answers. *)
Lemma interactive_end_of_input_witness :
  snd (run_main sample_float_of ["prog"] [Typed "500"; Typed "600"])
  = inl REOFError.
Proof.
  assert (Hlen : (List.length ["prog"] <= 1)%nat) by (simpl; lia).
  assert (Hgood : (List.length ["500"; "600"] < 6)%nat) by (simpl; lia).
  assert (Hok : Forall (fun line => number_read sample_float_of 0 line
                                    <> None) (firstn 4 ["500"; "600"])).
  { repeat constructor; cbv; discriminate. }
  pose proof (interactive_end_of_input sample_float_of ["prog"]
                ["500"; "600"] Hlen Hgood Hok) as H.
  cbn [map] in H.
  destruct (run_main sample_float_of ["prog"] [Typed "500"; Typed "600"])
    as [w result].
  exact (proj1 (proj2 (proj2 (proj2 H)))).
Defined.
